(** * The Spring Boot scaffolder ([src/scaffolder.js]): model and properties

    The development follows the source function by function:
    - [JsString], [Regex]: JavaScript strings as UTF-16 code units and the
      regular-expression fragment the two classification patterns use;
    - [Classify]: the two patterns of [readDirectoryRecursive];
    - [Materializer]: [readDirectoryRecursive] / [extractZipToMemory];
    - [Removal]: [removeFiles];
    - [Url]: [URLSearchParams] serialisation and [buildSpringInitializrUrl],
      with the parameter resolution done by [scaffold];
    - [Fs], [Fetcher]: the paths on disk, and [downloadSpringBootZip] as
      a reaction to the events of the request and of the write stream;
    - [Scaffold]: the [try]/[finally] pipeline of [scaffold].
    The properties of the specification come last. *)

From Stdlib Require Import NArith Ascii String List Bool Lia.
From stdpp Require Import gmap strings list.

Local Open Scope N_scope.

(** ** JavaScript strings *)

Module JsString.

(** A JavaScript string is a sequence of UTF-16 code units, here a
    [list N].  File names, relative paths and file-system paths are kept
    in this form: the regular expressions of the program (no [u] flag)
    inspect code units. *)

(** The code units of an ASCII literal of the source text. *)
Definition js (s : string) : list N :=
  map N_of_ascii (list_ascii_of_string s).

(** ECMAScript [LineTerminator]: LF, CR, LS (U+2028), PS (U+2029). *)
Definition isLineTerminator (c : N) : bool :=
  (c =? 10) || (c =? 13) || (c =? 8232) || (c =? 8233).

(** ECMAScript [Canonicalize] for a pattern without the [u] flag, as far
    as it can be observed against ASCII pattern characters: a code unit is
    upper-cased, and a code unit of 128 or more is never mapped below 128.
    Every literal of the program's patterns is ASCII, so only the ASCII
    letters are folded here. *)
Definition canonicalize (c : N) : N :=
  if (97 <=? c) && (c <=? 122) then c - 32 else c.

(** Comparison of one pattern character with one input code unit. *)
Definition unit_eqb (ignoreCase : bool) (p c : N) : bool :=
  if ignoreCase then canonicalize p =? canonicalize c else p =? c.

(** Equality of two strings up to ASCII case. *)
Definition eq_ci (a b : list N) : bool :=
  bool_decide (map canonicalize a = map canonicalize b).

(** [s] ends with [suf], up to ASCII case. *)
Definition ends_with_ci (suf s : list N) : bool :=
  (length suf <=? length s)%nat && eq_ci (drop (length s - length suf)%nat s) suf.

(** [s] ends with [suf], code unit for code unit. *)
Definition ends_with (suf s : list N) : bool :=
  (length suf <=? length s)%nat && bool_decide (drop (length s - length suf)%nat s = suf).

Definition no_line_terminator (s : list N) : Prop :=
  Forall (fun c => isLineTerminator c = false) s.

Lemma eq_ci_length a b : eq_ci a b = true -> length a = length b.
Proof.
  unfold eq_ci. rewrite bool_decide_eq_true. intros H.
  rewrite <- (length_map canonicalize a), H. apply length_map.
Qed.

Lemma eq_ci_cons c w p l :
  eq_ci (c :: w) (p :: l) = true <->
  canonicalize c = canonicalize p /\ eq_ci w l = true.
Proof.
  unfold eq_ci. rewrite !bool_decide_eq_true. cbn [map]. split.
  - intros H. injection H as H1 H2. auto.
  - intros [-> ->]. reflexivity.
Qed.

Lemma ends_with_ci_spec suf s :
  ends_with_ci suf s = true <->
  exists pre t, s = pre ++ t /\ eq_ci t suf = true.
Proof.
  unfold ends_with_ci. rewrite andb_true_iff, Nat.leb_le. split.
  - intros [Hlen H]. exists (take (length s - length suf)%nat s), (drop (length s - length suf)%nat s).
    split; [symmetry; apply take_drop | exact H].
  - intros (pre & t & -> & H). pose proof (eq_ci_length _ _ H) as Hl.
    rewrite length_app, <- Hl. split; [lia|].
    replace (length pre + length t - length t)%nat with (length pre) by lia.
    rewrite drop_app_length. exact H.
Qed.

Lemma ends_with_spec suf s :
  ends_with suf s = true <-> exists pre, s = pre ++ suf.
Proof.
  unfold ends_with. rewrite andb_true_iff, Nat.leb_le, bool_decide_eq_true. split.
  - intros [Hlen H]. exists (take (length s - length suf)%nat s).
    rewrite <- H at 2. symmetry. apply take_drop.
  - intros (pre & ->). rewrite length_app. split; [lia|].
    replace (length pre + length suf - length suf)%nat with (length pre) by lia.
    apply drop_app_length.
Qed.

End JsString.

Import JsString.

(** ** Regular expressions *)

Module Regex.

(** The fragment of the pattern language used by the source: literals,
    [.], alternation, concatenation and the star. *)
Inductive regex : Type :=
| Never
| Eps
| Chr (p : N)
| Dot
| Alt (a b : regex)
| Seq (a b : regex)
| Star (a : regex).

(** The meaning of a pattern: the strings it matches entirely. *)
Inductive Matches (ic : bool) : regex -> list N -> Prop :=
| MEps : Matches ic Eps []
| MChr p c : unit_eqb ic p c = true -> Matches ic (Chr p) [c]
| MDot c : isLineTerminator c = false -> Matches ic Dot [c]
| MAltL a b s : Matches ic a s -> Matches ic (Alt a b) s
| MAltR a b s : Matches ic b s -> Matches ic (Alt a b) s
| MSeq a b s t : Matches ic a s -> Matches ic b t -> Matches ic (Seq a b) (s ++ t)
| MStarNil a : Matches ic (Star a) []
| MStarApp a s t :
    Matches ic a s -> Matches ic (Star a) t -> Matches ic (Star a) (s ++ t).

(** The matcher: Brzozowski derivatives. *)
Fixpoint nullable (r : regex) : bool :=
  match r with
  | Never | Chr _ | Dot => false
  | Eps | Star _ => true
  | Alt a b => nullable a || nullable b
  | Seq a b => nullable a && nullable b
  end.

Fixpoint deriv (ic : bool) (c : N) (r : regex) : regex :=
  match r with
  | Never | Eps => Never
  | Chr p => if unit_eqb ic p c then Eps else Never
  | Dot => if isLineTerminator c then Never else Eps
  | Alt a b => Alt (deriv ic c a) (deriv ic c b)
  | Seq a b =>
      if nullable a
      then Alt (Seq (deriv ic c a) b) (deriv ic c b)
      else Seq (deriv ic c a) b
  | Star a => Seq (deriv ic c a) (Star a)
  end.

Fixpoint matches (ic : bool) (r : regex) (s : list N) : bool :=
  match s with
  | [] => nullable r
  | c :: s' => matches ic (deriv ic c r) s'
  end.

(** All the suffixes of a string, the longest first: the start positions a
    search tries in turn. *)
Fixpoint tails (s : list N) : list (list N) :=
  match s with
  | [] => [[]]
  | _ :: s' => s :: tails s'
  end.

(** A pattern object.  Both patterns of the program end in [$] and carry
    no [m] flag, so a match always extends to the end of the input;
    [anchoredStart] records a leading [^]. *)
Record RegExp : Type := {
  body : regex;
  anchoredStart : bool;
  ignoreCase : bool
}.

(** [RegExp.prototype.test]. *)
Definition test (re : RegExp) (s : list N) : bool :=
  if anchoredStart re
  then matches (ignoreCase re) (body re) s
  else existsb (matches (ignoreCase re) (body re)) (tails s).

(** A run of literal characters. *)
Definition lits (l : list N) : regex :=
  fold_right (fun p r => Seq (Chr p) r) Eps l.

Definition lit (s : string) : regex := lits (js s).

(** [(a|b|...)]. *)
Definition alts (l : list regex) : regex := fold_right Alt Never l.

Section Correctness.

Variable ic : bool.

Lemma Matches_Seq_inv a b w :
  Matches ic (Seq a b) w ->
  exists s t, w = s ++ t /\ Matches ic a s /\ Matches ic b t.
Proof. intros H. inversion H; subst. eauto. Qed.

Lemma Matches_Alt_inv a b w :
  Matches ic (Alt a b) w -> Matches ic a w \/ Matches ic b w.
Proof. intros H. inversion H; subst; auto. Qed.

Lemma Matches_Chr_inv p w :
  Matches ic (Chr p) w -> exists c, w = [c] /\ unit_eqb ic p c = true.
Proof. intros H. inversion H; subst. eauto. Qed.

Lemma Matches_Dot_inv w :
  Matches ic Dot w -> exists c, w = [c] /\ isLineTerminator c = false.
Proof. intros H. inversion H; subst. eauto. Qed.

Lemma Matches_Eps_inv w : Matches ic Eps w -> w = [].
Proof. intros H. inversion H. reflexivity. Qed.

Lemma Matches_Never_inv w : ~ Matches ic Never w.
Proof. intros H. inversion H. Qed.

Lemma nullable_Matches r : nullable r = true <-> Matches ic r [].
Proof.
  induction r; simpl.
  - split; [discriminate | intros H; inversion H].
  - split; [constructor | reflexivity].
  - split; [discriminate | intros H; inversion H].
  - split; [discriminate | intros H; inversion H].
  - rewrite orb_true_iff, IHr1, IHr2. split.
    + intros [H|H]; [apply MAltL | apply MAltR]; exact H.
    + apply Matches_Alt_inv.
  - rewrite andb_true_iff, IHr1, IHr2. split.
    + intros [H1 H2]. change (Matches ic (Seq r1 r2) ([] ++ [])). constructor; assumption.
    + intros H. apply Matches_Seq_inv in H as (s & t & Heq & Hs & Ht).
      symmetry in Heq. apply app_eq_nil in Heq as [-> ->]. auto.
  - split; [constructor | reflexivity].
Qed.

(** A star that matches a non-empty string starts with a non-empty
    iteration. *)
Lemma Matches_Star_cons a c s :
  Matches ic (Star a) (c :: s) ->
  exists s1 s2, s = s1 ++ s2 /\ Matches ic a (c :: s1) /\ Matches ic (Star a) s2.
Proof.
  intros H. remember (Star a) as r eqn:Hr. remember (c :: s) as w eqn:Hw.
  revert c s Hw. induction H; intros c' s' Hw; try discriminate.
  injection Hr as ->.
  destruct s as [|x s1].
  - simpl in Hw. apply IHMatches2; [reflexivity | exact Hw].
  - simpl in Hw. injection Hw as -> <-. exists s1, t. auto.
Qed.

Lemma deriv_Matches r : forall c s,
  Matches ic (deriv ic c r) s <-> Matches ic r (c :: s).
Proof.
  induction r; intros c s; simpl.
  - split; intros H; inversion H.
  - split; intros H; inversion H.
  - destruct (unit_eqb ic p c) eqn:E; split; intros H.
    + apply Matches_Eps_inv in H as ->. constructor. exact E.
    + apply Matches_Chr_inv in H as (c' & Heq & Hc). injection Heq as _ ->. constructor.
    + inversion H.
    + apply Matches_Chr_inv in H as (c' & Heq & Hc). injection Heq as <- _. congruence.
  - destruct (isLineTerminator c) eqn:E; split; intros H.
    + inversion H.
    + apply Matches_Dot_inv in H as (c' & Heq & Hc). injection Heq as <- _. congruence.
    + apply Matches_Eps_inv in H as ->. constructor. exact E.
    + apply Matches_Dot_inv in H as (c' & Heq & Hc). injection Heq as _ ->. constructor.
  - split; intros H; apply Matches_Alt_inv in H as [H|H].
    + apply MAltL, IHr1. assumption.
    + apply MAltR, IHr2. assumption.
    + apply MAltL, IHr1. assumption.
    + apply MAltR, IHr2. assumption.
  - assert (Hseq : forall t, Matches ic (Seq (deriv ic c r1) r2) t -> Matches ic (Seq r1 r2) (c :: t)).
    { intros t H. apply Matches_Seq_inv in H as (s1 & t1 & -> & H1 & H2).
      change (Matches ic (Seq r1 r2) ((c :: s1) ++ t1)).
      constructor; [apply IHr1|]; assumption. }
    assert (Hinv : forall t, Matches ic (Seq r1 r2) (c :: t) ->
              (Matches ic r1 [] /\ Matches ic r2 (c :: t)) \/
              Matches ic (Seq (deriv ic c r1) r2) t).
    { intros t H. apply Matches_Seq_inv in H as (s1 & t1 & Heq & H1 & H2).
      destruct s1 as [|x s1]; simpl in Heq.
      - subst t1. left. auto.
      - injection Heq as <- ->. right. constructor; [apply IHr1|]; assumption. }
    destruct (nullable r1) eqn:E; split; intros H.
    + apply Matches_Alt_inv in H as [H|H].
      * apply Hseq. assumption.
      * change (Matches ic (Seq r1 r2) ([] ++ c :: s)).
        constructor; [apply nullable_Matches; exact E | apply IHr2; assumption].
    + apply Hinv in H as [[_ H]|H]; [apply MAltR, IHr2 | apply MAltL]; assumption.
    + apply Hseq. assumption.
    + apply Hinv in H as [[H _]|H]; [|assumption].
      apply nullable_Matches in H. congruence.
  - split; intros H.
    + apply Matches_Seq_inv in H as (s1 & t1 & -> & H1 & H2).
      change (Matches ic (Star r) ((c :: s1) ++ t1)).
      constructor; [apply IHr|]; assumption.
    + apply Matches_Star_cons in H as (s1 & s2 & -> & H1 & H2).
      constructor; [apply IHr|]; assumption.
Qed.

(** The matcher decides the meaning of the pattern. *)
Lemma matches_Matches s : forall r, matches ic r s = true <-> Matches ic r s.
Proof.
  induction s as [|c s IH]; intros r; simpl.
  - apply nullable_Matches.
  - rewrite IH. apply deriv_Matches.
Qed.

Lemma Matches_lits l : forall w,
  Matches ic (lits l) w <-> Forall2 (fun p c => unit_eqb ic p c = true) l w.
Proof.
  induction l as [|p l IH]; intros w; simpl.
  - split; intros H.
    + apply Matches_Eps_inv in H as ->. constructor.
    + apply Forall2_nil_inv_l in H as ->. constructor.
  - split; intros H.
    + apply Matches_Seq_inv in H as (s1 & t & -> & H1 & H2).
      apply Matches_Chr_inv in H1 as (c & -> & Hc). simpl.
      constructor; [exact Hc | apply IH; exact H2].
    + apply Forall2_cons_inv_l in H as (c & t & Hc & Ht & ->).
      change (Matches ic (Seq (Chr p) (lits l)) ([c] ++ t)).
      constructor; [constructor; exact Hc | apply IH; exact Ht].
Qed.

Lemma Matches_alts rs : forall w,
  Matches ic (alts rs) w <-> exists r, In r rs /\ Matches ic r w.
Proof.
  induction rs as [|r rs IH]; intros w; simpl.
  - split; [intros H; inversion H | intros (r & [] & _)].
  - split.
    + intros H. apply Matches_Alt_inv in H as [H|H].
      * exists r. auto.
      * apply IH in H as (r' & Hin & Hr'). exists r'. auto.
    + intros (r' & [<-|Hin] & Hr'); [apply MAltL; exact Hr'|].
      apply MAltR, IH. eauto.
Qed.

Lemma Matches_Star_Dot w : Matches ic (Star Dot) w <-> no_line_terminator w.
Proof.
  unfold no_line_terminator. induction w as [|c w IH].
  - split; constructor.
  - split; intros H.
    + apply Matches_Star_cons in H as (s1 & s2 & -> & H1 & H2).
      apply Matches_Dot_inv in H1 as (c' & Heq & Hc). injection Heq as <- ->.
      constructor; [exact Hc | apply IH; exact H2].
    + apply Forall_cons in H as [Hc Hw].
      change (Matches ic (Star Dot) ([c] ++ w)).
      constructor; [constructor; exact Hc | apply IH; exact Hw].
Qed.

End Correctness.

Lemma Forall2_unit_eqb_ci l : forall w,
  Forall2 (fun p c => unit_eqb true p c = true) l w <->
  map canonicalize w = map canonicalize l.
Proof.
  induction l as [|p l IH]; intros w.
  - split; intros H.
    + apply Forall2_nil_inv_l in H as ->. reflexivity.
    + destruct w; [constructor | discriminate].
  - split; intros H.
    + apply Forall2_cons_inv_l in H as (c & t & Hc & Ht & ->).
      simpl. apply N.eqb_eq in Hc. rewrite Hc. f_equal. apply IH. exact Ht.
    + destruct w as [|c w]; [discriminate|]. simpl in H. injection H as Hc Hw.
      constructor; [simpl; apply N.eqb_eq; congruence | apply IH; exact Hw].
Qed.

(** A literal under the [i] flag matches the strings equal to it up to
    ASCII case. *)
Lemma Matches_lits_ci l w :
  Matches true (lits l) w <-> eq_ci w l = true.
Proof.
  unfold eq_ci. rewrite bool_decide_eq_true, Matches_lits. apply Forall2_unit_eqb_ci.
Qed.

Lemma in_tails s : forall t, In t (tails s) <-> exists pre, s = pre ++ t.
Proof.
  induction s as [|c s IH]; intros t; simpl.
  - split.
    + intros [<-|[]]. exists []. reflexivity.
    + intros (pre & H). symmetry in H. apply app_eq_nil in H as [_ ->]. auto.
  - split.
    + intros [<-|H]; [exists []; reflexivity|].
      apply IH in H as (pre & ->). exists (c :: pre). reflexivity.
    + intros (pre & H). destruct pre as [|x pre]; simpl in H.
      * left. congruence.
      * injection H as <- ->. right. apply IH. eauto.
Qed.

(** An unanchored search for [r$] succeeds when some suffix matches. *)
Lemma test_search re s :
  anchoredStart re = false ->
  test re s = true <->
  exists pre t, s = pre ++ t /\ Matches (ignoreCase re) (body re) t.
Proof.
  intros Ha. unfold test. rewrite Ha, existsb_exists. split.
  - intros (t & Hin & Hm). apply in_tails in Hin as (pre & ->).
    apply matches_Matches in Hm. eauto.
  - intros (pre & t & -> & Hm). exists t. split.
    + apply in_tails. eauto.
    + apply matches_Matches. exact Hm.
Qed.

Lemma test_anchored re s :
  anchoredStart re = true ->
  test re s = true <-> Matches (ignoreCase re) (body re) s.
Proof. intros Ha. unfold test. rewrite Ha. apply matches_Matches. Qed.

End Regex.

Import Regex.

(** ** The Archive Materializer: classification *)

Module Classify.

Definition binaryExtensions : list string :=
  ["jar"; "class"; "png"; "jpg"; "jpeg"; "gif"; "ico"; "zip"; "gz"; "tar"; "war"; "ear"]%string.

(** [/\.(jar|class|png|jpg|jpeg|gif|ico|zip|gz|tar|war|ear)$/i] *)
Definition binaryPattern : RegExp :=
  {| body := Seq (Chr 46) (alts (map lit binaryExtensions));
     anchoredStart := false;
     ignoreCase := true |}.

(** [/^(gradlew|gradlew\.bat|.*\.sh)$/i]; an escaped full stop is the
    literal code unit 46. *)
Definition executablePattern : RegExp :=
  {| body := alts [lit "gradlew"; lit "gradlew.bat"; Seq (Star Dot) (lit ".sh")];
     anchoredStart := true;
     ignoreCase := true |}.

(** [const isBinary = /.../i.test(item.name)] *)
Definition isBinary (name : list N) : bool := test binaryPattern name.

(** [const shouldBeExecutable = /.../i.test(item.name)] *)
Definition shouldBeExecutable (name : list N) : bool := test executablePattern name.

(** *** The classification policy in the words of the specification *)

(** The denylist of the specification: archives, class files and the
    common image formats. *)
Definition denylist : list string :=
  ["jar"; "class"; "png"; "jpg"; "jpeg"; "gif"; "ico"; "zip"; "gz"; "tar"; "war"; "ear"]%string.

(** The name ends, up to case, in a full stop followed by one of the
    listed extensions. *)
Definition has_denylisted_extension (name : list N) : bool :=
  existsb (fun ext => ends_with_ci (46 :: js ext) name) denylist.

(** As the specification words it: the name is [gradlew] or
    [gradlew.bat], or ends in [.sh]. *)
Definition is_launcher_or_shell_script (name : list N) : bool :=
  bool_decide (name = js "gradlew") || bool_decide (name = js "gradlew.bat")
  || ends_with (js ".sh") name.

(** The same rule with every comparison made up to ASCII case. *)
Definition is_launcher_or_shell_script_ci (name : list N) : bool :=
  eq_ci name (js "gradlew") || eq_ci name (js "gradlew.bat")
  || ends_with_ci (js ".sh") name.

Lemma isBinary_spec name :
  isBinary name = true <-> has_denylisted_extension name = true.
Proof.
  unfold isBinary, has_denylisted_extension.
  rewrite test_search by reflexivity. rewrite existsb_exists.
  cbn [body ignoreCase binaryPattern].
  split.
  - intros (pre & t & -> & H).
    apply Matches_Seq_inv in H as (d & w & -> & Hd & Hw).
    apply Matches_Chr_inv in Hd as (c & -> & Hc).
    apply Matches_alts in Hw as (r & Hin & Hr).
    apply in_map_iff in Hin as (ext & <- & Hext).
    exists ext. split; [exact Hext|].
    apply ends_with_ci_spec. exists pre, ([c] ++ w). split; [reflexivity|].
    apply Matches_lits_ci in Hr. apply eq_ci_cons. split; [|exact Hr].
    unfold unit_eqb in Hc. apply N.eqb_eq in Hc. symmetry. exact Hc.
  - intros (ext & Hext & H).
    apply ends_with_ci_spec in H as (pre & t & -> & H).
    exists pre, t. split; [reflexivity|].
    destruct t as [|c w]; [discriminate|]. apply eq_ci_cons in H as [Hc Hw].
    change (Matches true (Seq (Chr 46) (alts (map lit binaryExtensions))) ([c] ++ w)).
    constructor.
    + constructor. unfold unit_eqb. apply N.eqb_eq. symmetry. exact Hc.
    + apply Matches_alts. exists (lit ext). split; [apply in_map; exact Hext|].
      apply Matches_lits_ci. exact Hw.
Qed.

(** What the executable pattern accepts, exactly: the third alternative
    needs the part before [.sh] to be free of line terminators, which
    [.] does not match. *)
Lemma shouldBeExecutable_exact name :
  shouldBeExecutable name = true <->
  eq_ci name (js "gradlew") = true \/ eq_ci name (js "gradlew.bat") = true \/
  exists pre t, name = pre ++ t /\ no_line_terminator pre /\ eq_ci t (js ".sh") = true.
Proof.
  unfold shouldBeExecutable. rewrite test_anchored by reflexivity.
  cbn [body ignoreCase executablePattern]. rewrite Matches_alts. split.
  - intros (r & Hin & Hr). simpl in Hin.
    destruct Hin as [<-|[<-|[<-|[]]]].
    + left. apply Matches_lits_ci. exact Hr.
    + right; left. apply Matches_lits_ci. exact Hr.
    + right; right. apply Matches_Seq_inv in Hr as (pre & t & -> & Hp & Ht).
      exists pre, t. split; [reflexivity|]. split.
      * apply (Matches_Star_Dot true). exact Hp.
      * apply Matches_lits_ci. exact Ht.
  - intros [H|[H|(pre & t & -> & Hp & Ht)]].
    + exists (lit "gradlew"). split; [simpl; auto | apply Matches_lits_ci; exact H].
    + exists (lit "gradlew.bat"). split; [simpl; auto | apply Matches_lits_ci; exact H].
    + exists (Seq (Star Dot) (lit ".sh")). split; [simpl; auto|].
      constructor; [apply Matches_Star_Dot; exact Hp | apply Matches_lits_ci; exact Ht].
Qed.

Lemma shouldBeExecutable_spec name :
  no_line_terminator name ->
  shouldBeExecutable name = true <-> is_launcher_or_shell_script_ci name = true.
Proof.
  intros Hlt. rewrite shouldBeExecutable_exact.
  unfold is_launcher_or_shell_script_ci. rewrite !orb_true_iff, ends_with_ci_spec.
  split.
  - intros [H|[H|(pre & t & -> & _ & H)]]; eauto.
  - intros [[H|H]|(pre & t & -> & H)]; auto.
    right; right. exists pre, t. split; [reflexivity|]. split; [|exact H].
    unfold no_line_terminator in *. apply Forall_app in Hlt as [Hpre _]. exact Hpre.
Qed.

(** *** The two patterns exclude each other *)

Lemma has_denylisted_extension_canonical name :
  has_denylisted_extension name = true ->
  exists ext pre, In ext binaryExtensions /\
    map canonicalize name = pre ++ map canonicalize (46 :: js ext).
Proof.
  unfold has_denylisted_extension. rewrite existsb_exists.
  intros (ext & Hin & H). apply ends_with_ci_spec in H as (pre & t & -> & H).
  unfold eq_ci in H. apply bool_decide_eq_true in H.
  exists ext, (map canonicalize pre). split; [exact Hin|].
  rewrite map_app, H. reflexivity.
Qed.

(** Neither launcher name ends in a denylisted extension, and every
    denylisted extension ends in a letter other than [h]. *)
Lemma denylist_excludes_allowlist ext pre cn :
  In ext binaryExtensions ->
  cn = pre ++ map canonicalize (46 :: js ext) ->
  cn <> map canonicalize (js "gradlew") /\
  cn <> map canonicalize (js "gradlew.bat") /\
  last cn <> Some (canonicalize 104).
Proof.
  intros Hin ->. split; [|split].
  - intros H.
    assert (Hs : ends_with (map canonicalize (46 :: js ext)) (map canonicalize (js "gradlew")) = true)
      by (apply ends_with_spec; eauto).
    revert Hs. clear H. simpl in Hin.
    repeat (destruct Hin as [<-|Hin]; [vm_compute; discriminate|]). destruct Hin.
  - intros H.
    assert (Hs : ends_with (map canonicalize (46 :: js ext)) (map canonicalize (js "gradlew.bat")) = true)
      by (apply ends_with_spec; eauto).
    revert Hs. clear H. simpl in Hin.
    repeat (destruct Hin as [<-|Hin]; [vm_compute; discriminate|]). destruct Hin.
  - rewrite last_app. simpl in Hin.
    repeat (destruct Hin as [<-|Hin]; [vm_compute; discriminate|]). destruct Hin.
Qed.

Lemma executable_not_binary name :
  shouldBeExecutable name = true -> isBinary name = false.
Proof.
  intros He. destruct (isBinary name) eqn:Hb; [exfalso | reflexivity].
  apply isBinary_spec, has_denylisted_extension_canonical in Hb as (ext & pre & Hin & Hcn).
  destruct (denylist_excludes_allowlist ext pre _ Hin Hcn) as (H1 & H2 & H3).
  apply shouldBeExecutable_exact in He as [H|[H|(p & t & -> & _ & H)]].
  - apply H1. unfold eq_ci in H. apply bool_decide_eq_true in H. exact H.
  - apply H2. unfold eq_ci in H. apply bool_decide_eq_true in H. exact H.
  - apply H3. unfold eq_ci in H. apply bool_decide_eq_true in H.
    rewrite map_app, H, last_app. reflexivity.
Qed.

End Classify.

(** ** Errors and console output *)

(** The errors the program raises itself keep their own constructor; an
    error raised by the runtime (file system, archive library, network)
    is a [SystemError] with its message. *)
Inductive Error : Type :=
| StatusError (statusCode : N)
    (* new Error(`Spring Initializr request failed with status: ${res.statusCode}`) *)
| DownloadError (message : string)
    (* new Error(`Failed to download Spring Boot project: ${err.message}`) *)
| MissingAdmZip
    (* new Error('adm-zip package is required ...') *)
| SystemError (message : string).

(** One line per [console.log] / [console.warn] call of the source. *)
Inductive LogLine : Type :=
| LogDownloading (url : string)
| LogDownloaded (outputPath : list N)
| LogExtracting
| WarnCouldNotRead (relativePath : list N) (message : string)
| LogExtracted (count : nat)
| LogRemoving
| LogRemoved (file : list N)
| WarnNotFound (file : list N)
| LogParameters
| LogGenerated (count : nat)
| WarnCleanup (tempDir : list N) (message : string).


(** ** The Archive Materializer: the walk *)

Module Materializer.

Import Classify.

Inductive Kind : Type := binary | text.

(** What [fs.readFileSync(fullPath, encoding)] returned for the bytes of
    a file: their base64 text, or their decoding as UTF-8. *)
Inductive Content : Type :=
| Base64Of (bytes : list N)
| Utf8Of (bytes : list N).

Record FileEntry : Type := {
  type : Kind;
  content : Content;
  executable : bool
}.

(** The outcome of [fs.readFileSync] on one entry. *)
Inductive ReadResult : Type :=
| ReadOk (bytes : list N)
| ReadThrows (message : string).

(** What the walk meets at a directory: [fs.existsSync] is false, or
    [fs.readdirSync] throws, or the items are listed. *)
Inductive DirAccess : Type :=
| Listed
| Missing
| ListThrows (message : string).

(** The unpacked tree as [fs.readdirSync(..., { withFileTypes: true })]
    presents it: an item for which [isDirectory()] holds, or any other
    item. *)
#[warnings="-register-all"]
Inductive Dirent : Type :=
| FileItem (name : list N) (read : ReadResult)
| DirItem (name : list N) (access : DirAccess) (items : list Dirent).

(** [path.join(basePath, item.name)] on a name returned by [readdirSync]
    (no separator inside, neither [.] nor [..]): the two parts around the
    separator [/]. *)
Definition join (basePath name : list N) : list N := basePath ++ 47 :: name.

(** [basePath ? path.join(basePath, item.name) : item.name]: the empty
    string is falsy. *)
Definition relativePath (basePath name : list N) : list N :=
  match basePath with
  | [] => name
  | _ => join basePath name
  end.

(** The object stored at [files[relativePath]]. *)
Definition entryOf (name bytes : list N) : FileEntry :=
  if isBinary name
  then {| type := binary; content := Base64Of bytes; executable := shouldBeExecutable name |}
  else {| type := text; content := Utf8Of bytes; executable := shouldBeExecutable name |}.

(** The [files] object ([const files = {}]): a plain object, with its own
    properties and its prototype.  The prototype is [Object.prototype]
    ([proto = None]) until an assignment to the key [__proto__] runs the
    setter inherited from [Object.prototype], which makes the assigned
    entry the prototype of [files] and creates no own property. *)
Record Files : Type := {
  own : gmap (list N) FileEntry;
  proto : option FileEntry
}.

(** [{}] *)
Definition emptyFiles : Files := {| own := ∅; proto := None |}.

Definition protoKey : list N := js "__proto__".

(** [files[key] = entry] *)
Definition assign (key : list N) (entry : FileEntry) (files : Files) : Files :=
  if bool_decide (key = protoKey)
  then {| own := own files; proto := Some entry |}
  else {| own := <[key := entry]> (own files); proto := proto files |}.

(** [delete files[key]]: own properties only. *)
Definition deleteKey (key : list N) (files : Files) : Files :=
  {| own := delete key (own files); proto := proto files |}.

(** The properties of [Object.prototype]: every one is a function,
    except the accessor [__proto__], which answers with the prototype;
    all are truthy. *)
Definition objectPrototypeNames : list string :=
  ["constructor"; "__defineGetter__"; "__defineSetter__"; "hasOwnProperty";
   "__lookupGetter__"; "__lookupSetter__"; "isPrototypeOf"; "propertyIsEnumerable";
   "toString"; "valueOf"; "__proto__"; "toLocaleString"]%string.

(** The content string is empty: both encodings of no bytes, and of no
    bytes only. *)
Definition contentIsEmpty (c : Content) : bool :=
  match c with
  | Base64Of bytes | Utf8Of bytes => bool_decide (bytes = [])
  end.

(** Whether [files[key]] is truthy through the prototype chain: the
    three properties of an entry that became the prototype ([type] is a
    non-empty string, [content] a string, [executable] a boolean), then
    [Object.prototype]. *)
Definition inheritedTruthy (files : Files) (key : list N) : bool :=
  match proto files with
  | Some e =>
      bool_decide (key = js "type")
      || (bool_decide (key = js "content") && negb (contentIsEmpty (content e)))
      || (bool_decide (key = js "executable") && executable e)
  | None => false
  end
  || bool_decide (key ∈ map js objectPrototypeNames).

(** Whether [files[key]] is truthy: an own property holds an entry, an
    object; otherwise the prototype chain answers. *)
Definition truthyAt (files : Files) (key : list N) : bool :=
  bool_decide (is_Some (own files !! key)) || inheritedTruthy files key.

(** Every entry assigned to the object and still held by it, each under
    the key it was assigned to: the own properties, and the prototype
    under [__proto__]. *)
Definition assigned (files : Files) : gmap (list N) FileEntry :=
  match proto files with
  | Some e => <[protoKey := e]> (own files)
  | None => own files
  end.

(** The state the walk updates: the shared [files] object and the
    console. *)
Definition WalkState : Type := Files * list LogLine.

(** One iteration of the [for] loop; [Some e] when an exception leaves
    the walk. *)
Fixpoint readItem (basePath : list N) (item : Dirent) (st : WalkState)
  : option Error * WalkState :=
  match item with
  | FileItem name read =>
      let rel := relativePath basePath name in
      match read with
      | ReadOk bytes => (None, (assign rel (entryOf name bytes) (fst st), snd st))
      | ReadThrows message => (None, (fst st, snd st ++ [WarnCouldNotRead rel message]))
      end
  | DirItem name access items =>
      let rel := relativePath basePath name in
      match access with
      | Missing => (None, st)
      | ListThrows message => (Some (SystemError message), st)
      | Listed =>
          (fix each (items : list Dirent) (st : WalkState) : option Error * WalkState :=
             match items with
             | [] => (None, st)
             | item :: rest =>
                 match readItem rel item st with
                 | (None, st') => each rest st'
                 | thrown => thrown
                 end
             end) items st
      end
  end.

(** The [for (const item of items)] loop. *)
Fixpoint readItems (basePath : list N) (items : list Dirent) (st : WalkState)
  : option Error * WalkState :=
  match items with
  | [] => (None, st)
  | item :: rest =>
      match readItem basePath item st with
      | (None, st') => readItems basePath rest st'
      | thrown => thrown
      end
  end.

(** [readDirectoryRecursive(dirPath, basePath)] on a directory with the
    given access and items. *)
Definition readDirectoryRecursive (access : DirAccess) (items : list Dirent)
    (basePath : list N) (st : WalkState) : option Error * WalkState :=
  match access with
  | Missing => (None, st)
  | ListThrows message => (Some (SystemError message), st)
  | Listed => readItems basePath items st
  end.

Lemma readItem_DirItem basePath name access items st :
  readItem basePath (DirItem name access items) st =
  readDirectoryRecursive access items (relativePath basePath name) st.
Proof.
  destruct access; try reflexivity. simpl.
  revert st. induction items as [|i rest IH]; intros st; [reflexivity|].
  simpl. destruct (readItem _ i st) as [[e|] st']; [reflexivity | apply IH].
Qed.

(** The files the walk reaches: [file_at base items p name r] when a
    non-directory item [name] with read outcome [r] lies at relative path
    [p] below a directory whose items are [items] and whose own relative
    path is [base]. *)
Inductive file_at : list N -> list Dirent -> list N -> list N -> ReadResult -> Prop :=
| file_here base items name r :
    In (FileItem name r) items ->
    file_at base items (relativePath base name) name r
| file_below base items name sub p n r :
    In (DirItem name Listed sub) items ->
    file_at (relativePath base name) sub p n r ->
    file_at base items p n r.

(** Every directory of the tree can be listed ([readdirSync] does not
    throw). *)
Fixpoint listable (item : Dirent) : bool :=
  match item with
  | FileItem _ _ => true
  | DirItem _ Listed items => forallb listable items
  | DirItem _ Missing _ => true
  | DirItem _ (ListThrows _) _ => false
  end.

(** Below [base], each relative path names one file of the tree. *)
Definition unique_below (base : list N) (items : list Dirent) : Prop :=
  forall p n1 r1 n2 r2,
    file_at base items p n1 r1 -> file_at base items p n2 r2 -> n1 = n2 /\ r1 = r2.

Definition itemName (item : Dirent) : list N :=
  match item with
  | FileItem name _ | DirItem name _ _ => name
  end.

(** A name as [readdirSync] returns it: not empty, without the
    separator, and neither [.] nor [..]. *)
Definition validName (name : list N) : bool :=
  negb (bool_decide (name = []))
  && forallb (fun c => negb (c =? 47)) name
  && negb (bool_decide (name = js "."))
  && negb (bool_decide (name = js "..")).

(** A directory tree: valid names, and no name twice in one directory. *)
Fixpoint wellFormed (item : Dirent) : bool :=
  match item with
  | FileItem name _ => validName name
  | DirItem name _ items =>
      validName name
      && bool_decide (NoDup (map itemName items))
      && forallb wellFormed items
  end.

Definition wellFormedTree (items : list Dirent) : bool :=
  bool_decide (NoDup (map itemName items)) && forallb wellFormed items.

(** The archive library as [extractZipToMemory] meets it. *)
Inductive UnpackResult : Type :=
| UnpackThrows (message : string)
    (* [new AdmZip(zipPath)] or [zip.extractAllTo] throws *)
| Unpacked (access : DirAccess) (items : list Dirent).
    (* the tree then found at [extractPath] *)

Record ArchiveEnv : Type := {
  admZipInstalled : bool;   (* [require('adm-zip')] succeeds *)
  unpack : UnpackResult
}.

(** [extractZipToMemory(zipPath, extractPath)]: the value the promise
    settles with, and the console lines. *)
Definition extractZipToMemory (env : ArchiveEnv)
  : (Error + Files) * list LogLine :=
  if negb (admZipInstalled env) then (inl MissingAdmZip, [])
  else
    match unpack env with
    | UnpackThrows message => (inl (SystemError message), [LogExtracting])
    | Unpacked access items =>
        match readDirectoryRecursive access items [] (emptyFiles, []) with
        | (Some e, (_, log)) => (inl e, LogExtracting :: log)
        | (None, (files, log)) =>
            (* Object.keys(files).length *)
            (inr files, LogExtracting :: log ++ [LogExtracted (size (own files))])
        end
    end.

(** Induction on the tree, with the items of a directory covered. *)
Section DirentInduction.

Variable P : Dirent -> Prop.
Hypothesis HFile : forall name r, P (FileItem name r).
Hypothesis HDir : forall name access items,
  Forall P items -> P (DirItem name access items).

Fixpoint Dirent_nested_ind (item : Dirent) : P item :=
  match item with
  | FileItem name r => HFile name r
  | DirItem name access items =>
      HDir name access items
        ((fix all (l : list Dirent) : Forall P l :=
            match l with
            | [] => @List.Forall_nil _ P
            | x :: xs => @List.Forall_cons _ P x xs (Dirent_nested_ind x) (all xs)
            end) items)
  end.

End DirentInduction.

(** *** What one run of the loop establishes *)

Lemma file_at_app base l1 l2 p n r :
  file_at base (l1 ++ l2) p n r <-> file_at base l1 p n r \/ file_at base l2 p n r.
Proof.
  split.
  - intros H. inversion H as [b i nm rr Hin|b i nm sub pp nn rr Hin Hsub]; subst;
      apply in_app_or in Hin as [Hin|Hin];
      solve [left; econstructor; eauto | right; econstructor; eauto].
  - intros [H|H]; inversion H; subst;
      solve [eapply file_here; apply in_or_app; eauto
            | eapply file_below; [apply in_or_app|]; eauto].
Qed.

Lemma file_at_nil base p n r : ~ file_at base [] p n r.
Proof. intros H. inversion H; subst; contradiction. Qed.

Lemma file_at_FileItem base name read p n r :
  file_at base [FileItem name read] p n r <->
  p = relativePath base name /\ n = name /\ r = read.
Proof.
  split.
  - intros H. inversion H as [b i nm rr Hin|b i nm sub pp nn rr Hin Hsub]; subst;
      destruct Hin as [Heq|[]]; [|discriminate].
    injection Heq as <- <-. auto.
  - intros (-> & -> & ->). constructor. left. reflexivity.
Qed.

Lemma file_at_DirItem base name access items p n r :
  file_at base [DirItem name access items] p n r <->
  access = Listed /\ file_at (relativePath base name) items p n r.
Proof.
  split.
  - intros H. inversion H as [b i nm rr Hin|b i nm sub pp nn rr Hin Hsub]; subst;
      destruct Hin as [Heq|[]]; [discriminate|].
    injection Heq as <- <- <-. auto.
  - intros (-> & H). econstructor; [left; reflexivity | exact H].
Qed.

Lemma assigned_assign key entry files :
  assigned (assign key entry files) = <[key := entry]> (assigned files).
Proof.
  unfold assign, assigned. destruct files as [o pr]. simpl.
  destruct (bool_decide (key = protoKey)) eqn:E; simpl.
  - apply bool_decide_eq_true in E. subst key.
    destruct pr; [rewrite insert_insert_eq|]; reflexivity.
  - apply bool_decide_eq_false in E.
    destruct pr; [apply insert_insert_ne; congruence | reflexivity].
Qed.

Lemma own_assign_protoKey key entry files :
  own (assign key entry files) !! protoKey = own files !! protoKey.
Proof.
  unfold assign. destruct (bool_decide (key = protoKey)) eqn:E; simpl; [reflexivity|].
  apply bool_decide_eq_false in E. apply lookup_insert_ne. exact E.
Qed.

(** With no own property [__proto__], the object holds its own
    properties and, under [__proto__], its prototype. *)
Lemma assigned_lookup files p :
  own files !! protoKey = None ->
  assigned files !! p = if decide (p = protoKey) then proto files else own files !! p.
Proof.
  intros Hown. unfold assigned. destruct (decide (p = protoKey)) as [->|Hne].
  - destruct (proto files); [apply lookup_insert_eq | exact Hown].
  - destruct (proto files); [apply lookup_insert_ne; congruence | reflexivity].
Qed.

Record walk_post (base : list N) (items : list Dirent) (st st' : WalkState) : Prop := {
  post_keeps : forall p, is_Some (assigned (fst st) !! p) -> is_Some (assigned (fst st') !! p);
  post_log_keeps : forall l, In l (snd st) -> In l (snd st');
  post_read : forall p n bytes,
    file_at base items p n (ReadOk bytes) -> is_Some (assigned (fst st') !! p);
  post_warned : forall p n message,
    file_at base items p n (ReadThrows message) ->
    In (WarnCouldNotRead p message) (snd st');
  post_origin : forall p e,
    assigned (fst st') !! p = Some e ->
    assigned (fst st) !! p = Some e \/
    exists n bytes, file_at base items p n (ReadOk bytes) /\ e = entryOf n bytes;
  post_log_origin : forall l,
    In l (snd st') ->
    In l (snd st) \/
    exists p n message,
      l = WarnCouldNotRead p message /\ file_at base items p n (ReadThrows message);
  post_own_protoKey : own (fst st') !! protoKey = own (fst st) !! protoKey
}.

Lemma walk_post_nil base st : walk_post base [] st st.
Proof.
  split; auto; intros; exfalso; eapply file_at_nil; eauto.
Qed.

Lemma walk_post_app base l1 l2 st0 st1 st2 :
  walk_post base l1 st0 st1 -> walk_post base l2 st1 st2 ->
  walk_post base (l1 ++ l2) st0 st2.
Proof.
  intros [K1 L1 R1 W1 O1 G1 P1] [K2 L2 R2 W2 O2 G2 P2]. split.
  - auto.
  - auto.
  - intros p n bytes H. apply file_at_app in H as [H|H]; eauto.
  - intros p n message H. apply file_at_app in H as [H|H]; eauto.
  - intros p e H. apply O2 in H as [H|(n & bytes & H & ->)].
    + apply O1 in H as [H|(n & bytes & H & ->)]; [auto|].
      right. exists n, bytes. split; [apply file_at_app; auto | reflexivity].
    + right. exists n, bytes. split; [apply file_at_app; auto | reflexivity].
  - intros l H. apply G2 in H as [H|(p & n & message & -> & H)].
    + apply G1 in H as [H|(p & n & message & -> & H)]; [auto|].
      right. exists p, n, message. split; [reflexivity | apply file_at_app; auto].
    + right. exists p, n, message. split; [reflexivity | apply file_at_app; auto].
  - congruence.
Qed.

Lemma walk_post_FileItem base name read st :
  walk_post base [FileItem name read] st (snd (readItem base (FileItem name read) st)).
Proof.
  destruct st as [files log]. destruct read as [bytes|message]; simpl; split; simpl;
    rewrite ?assigned_assign.
  - intros p [e He]. destruct (decide (relativePath base name = p)) as [<-|Hne].
    + rewrite lookup_insert_eq. eauto.
    + rewrite lookup_insert_ne by exact Hne. eauto.
  - auto.
  - intros p n b H. apply file_at_FileItem in H as (-> & -> & _).
    rewrite lookup_insert_eq. eauto.
  - intros p n m H. apply file_at_FileItem in H as (_ & _ & H). discriminate.
  - intros p e H. destruct (decide (relativePath base name = p)) as [<-|Hne].
    + rewrite lookup_insert_eq in H. injection H as <-. right.
      exists name, bytes. split; [apply file_at_FileItem; auto | reflexivity].
    + rewrite lookup_insert_ne in H by exact Hne. auto.
  - auto.
  - apply own_assign_protoKey.
  - auto.
  - intros l H. apply in_or_app. auto.
  - intros p n b H. apply file_at_FileItem in H as (_ & _ & H). discriminate.
  - intros p n m H. apply file_at_FileItem in H as (-> & -> & H). injection H as ->.
    apply in_or_app. right. left. reflexivity.
  - auto.
  - intros l H. apply in_app_or in H as [H|[<-|[]]]; [auto|].
    right. exists (relativePath base name), name, message.
    split; [reflexivity | apply file_at_FileItem; auto].
  - reflexivity.
Qed.

Lemma walk_post_DirItem base name access items st st' :
  (access = Listed -> walk_post (relativePath base name) items st st') ->
  (access <> Listed -> st' = st) ->
  walk_post base [DirItem name access items] st st'.
Proof.
  intros HL HN.
  assert (Hcase : access = Listed \/ access <> Listed)
    by (destruct access; [left; reflexivity | right; discriminate | right; discriminate]).
  destruct Hcase as [->|Hne].
  - destruct (HL eq_refl) as [K L R W O G P]. split; auto.
    + intros p n b H. apply file_at_DirItem in H as [_ H]. eauto.
    + intros p n m H. apply file_at_DirItem in H as [_ H]. eauto.
    + intros p e H. apply O in H as [H|(n & b & H & ->)]; [auto|].
      right. exists n, b. split; [apply file_at_DirItem; auto | reflexivity].
    + intros l H. apply G in H as [H|(p & n & m & -> & H)]; [auto|].
      right. exists p, n, m. split; [reflexivity | apply file_at_DirItem; auto].
  - rewrite (HN Hne). split; auto.
    + intros p n b H. apply file_at_DirItem in H as [H _]. contradiction.
    + intros p n m H. apply file_at_DirItem in H as [H _]. contradiction.
Qed.

(** The loop over the items of one directory, given the property for
    each item. *)
Lemma readItems_post_of_items items :
  Forall (fun item => forall base st st',
            readItem base item st = (None, st') -> walk_post base [item] st st') items ->
  forall base st st',
    readItems base items st = (None, st') -> walk_post base items st st'.
Proof.
  induction 1 as [|item rest Hitem _ IH]; intros base st st' Hrun; simpl in Hrun.
  - injection Hrun as <-. apply walk_post_nil.
  - destruct (readItem base item st) as [[e|] st1] eqn:E; [discriminate|].
    change (item :: rest) with ([item] ++ rest).
    eapply walk_post_app; [apply Hitem; exact E | apply IH; exact Hrun].
Qed.

Lemma readItem_post item : forall base st st',
  readItem base item st = (None, st') -> walk_post base [item] st st'.
Proof.
  induction item as [name read|name access items IH] using Dirent_nested_ind;
    intros base st st' Hrun.
  - pose proof (walk_post_FileItem base name read st) as H.
    rewrite Hrun in H. exact H.
  - rewrite readItem_DirItem in Hrun. apply walk_post_DirItem.
    + intros ->. simpl in Hrun. eapply readItems_post_of_items; eauto.
    + intros Hne. destruct access; simpl in Hrun; congruence.
Qed.

Lemma readItems_post items base st st' :
  readItems base items st = (None, st') -> walk_post base items st st'.
Proof.
  apply readItems_post_of_items. apply Forall_forall. intros item _. apply readItem_post.
Qed.

(** *** In a directory tree each relative path names one file *)

Lemma validName_spec name :
  validName name = true -> name <> [] /\ Forall (fun c => c <> 47) name.
Proof.
  unfold validName. rewrite !andb_true_iff, !negb_true_iff, !bool_decide_eq_false.
  rewrite forallb_forall. intros [[[Hne Hsep] _] _]. split; [exact Hne|].
  apply Forall_forall. intros c Hc. apply list_elem_of_In, Hsep in Hc.
  apply negb_true_iff, N.eqb_neq in Hc. exact Hc.
Qed.

Lemma relativePath_inj base x y :
  relativePath base x = relativePath base y -> x = y.
Proof.
  destruct base as [|b base]; simpl; [auto|]. unfold join. intros H.
  injection H as H. apply app_inv_head in H. injection H as H. exact H.
Qed.

Lemma relativePath_sub base d rest :
  d <> [] ->
  relativePath base d ++ 47 :: rest = relativePath base (d ++ 47 :: rest) /\
  relativePath base d <> [].
Proof.
  intros Hd. destruct base as [|b base]; simpl.
  - split; [reflexivity | exact Hd].
  - unfold join. split; [|discriminate]. rewrite <- app_assoc. reflexivity.
Qed.

Lemma file_at_prefix base items p n r :
  base <> [] -> file_at base items p n r -> exists rest, p = base ++ 47 :: rest.
Proof.
  intros Hb H. induction H as [base items name r Hin|base items name sub p n r Hin Hsub IH].
  - destruct base; [contradiction|]. exists name. reflexivity.
  - destruct base as [|b base]; [contradiction|].
    destruct IH as (rest & ->); [discriminate|].
    exists (name ++ 47 :: rest). simpl. unfold join. rewrite <- app_assoc. reflexivity.
Qed.

(** A path below [base] is [base] followed by a name, or by the name of
    a directory, a separator and more. *)
Lemma file_at_shape base items p n r :
  Forall (fun item => itemName item <> []) items ->
  file_at base items p n r ->
  (p = relativePath base n /\ In (FileItem n r) items) \/
  (exists d sub rest,
      p = relativePath base (d ++ 47 :: rest) /\
      In (DirItem d Listed sub) items /\
      file_at (relativePath base d) sub p n r).
Proof.
  intros Hnames H. inversion H as [b i nm rr Hin|b i d sub pp nn rr Hin Hsub]; subst.
  - left. auto.
  - right. pose proof Hin as Hd. apply (proj1 (List.Forall_forall _ _) Hnames) in Hd.
    simpl in Hd.
    destruct (relativePath_sub base d [] Hd) as [_ Hne].
    destruct (file_at_prefix _ _ _ _ _ Hne Hsub) as (rest & ->).
    exists d, sub, rest. split; [apply relativePath_sub; exact Hd|]. auto.
Qed.

Lemma separator_split d1 d2 r1 r2 :
  Forall (fun c => c <> 47) d1 -> Forall (fun c => c <> 47) d2 ->
  d1 ++ 47 :: r1 = d2 ++ 47 :: r2 -> d1 = d2.
Proof.
  revert d2. induction d1 as [|c d1 IH]; intros d2 H1 H2 Heq; destruct d2 as [|c2 d2].
  - reflexivity.
  - simpl in Heq. injection Heq as <- _. apply Forall_cons in H2 as [H2 _]. contradiction.
  - simpl in Heq. injection Heq as -> _. apply Forall_cons in H1 as [H1 _]. contradiction.
  - simpl in Heq. injection Heq as -> Heq.
    apply Forall_cons in H1 as [_ H1]. apply Forall_cons in H2 as [_ H2].
    f_equal. eapply IH; eauto.
Qed.

Lemma NoDup_itemName items a b :
  NoDup (map itemName items) -> In a items -> In b items ->
  itemName a = itemName b -> a = b.
Proof.
  induction items as [|x items IH]; simpl; intros Hnd Ha Hb Heq; [contradiction|].
  apply NoDup_cons in Hnd as [Hx Hnd].
  destruct Ha as [->|Ha], Hb as [->|Hb].
  - reflexivity.
  - exfalso. apply Hx. rewrite Heq. apply list_elem_of_In, in_map, Hb.
  - exfalso. apply Hx. rewrite <- Heq. apply list_elem_of_In, in_map, Ha.
  - apply IH; assumption.
Qed.

Lemma wellFormed_items items :
  forallb wellFormed items = true ->
  Forall (fun item => itemName item <> [] /\ Forall (fun c => c <> 47) (itemName item)) items.
Proof.
  rewrite forallb_forall. intros H. apply Forall_forall. intros item Hin.
  apply list_elem_of_In, H in Hin. apply validName_spec.
  destruct item; simpl in *; [exact Hin|].
  apply andb_true_iff in Hin as [Hin _]. apply andb_true_iff in Hin as [Hin _]. exact Hin.
Qed.

Lemma wellFormedTree_unique_of_items items :
  Forall (fun item =>
            match item with
            | DirItem _ _ sub =>
                wellFormedTree sub = true -> forall base, unique_below base sub
            | FileItem _ _ => True
            end) items ->
  wellFormedTree items = true -> forall base, unique_below base items.
Proof.
  intros IH Hwf base p n1 r1 n2 r2 H1 H2.
  apply andb_true_iff in Hwf as [Hnd Hall]. apply bool_decide_eq_true in Hnd.
  pose proof (wellFormed_items items Hall) as Hnames.
  assert (Hne : Forall (fun item => itemName item <> []) items)
    by (eapply Forall_impl; [exact Hnames | intros x [H _]; exact H]).
  assert (Hsep : forall item, In item items -> Forall (fun c => c <> 47) (itemName item)).
  { intros item Hin. apply (proj1 (Forall_forall _ _) Hnames), list_elem_of_In, Hin. }
  apply (file_at_shape _ _ _ _ _ Hne) in H1 as [[-> F1]|(d1 & sub1 & rest1 & Hp1 & D1 & S1)];
  apply (file_at_shape _ _ _ _ _ Hne) in H2 as [[Hp2 F2]|(d2 & sub2 & rest2 & Hp2 & D2 & S2)].
  - apply relativePath_inj in Hp2. subst n2.
    pose proof (NoDup_itemName _ _ _ Hnd F1 F2 eq_refl) as Heq. injection Heq as ->. auto.
  - apply relativePath_inj in Hp2. exfalso.
    pose proof (Hsep _ F1) as Hn. simpl in Hn. rewrite Hp2 in Hn.
    apply Forall_app in Hn as [_ Hn]. apply Forall_cons in Hn as [Hn _]. contradiction.
  - rewrite Hp1 in Hp2. apply relativePath_inj in Hp2. exfalso.
    pose proof (Hsep _ F2) as Hn. simpl in Hn. rewrite <- Hp2 in Hn.
    apply Forall_app in Hn as [_ Hn]. apply Forall_cons in Hn as [Hn _]. contradiction.
  - rewrite Hp1 in Hp2. apply relativePath_inj in Hp2.
    apply separator_split in Hp2; [|exact (Hsep _ D1)|exact (Hsep _ D2)]. subst d2.
    pose proof (NoDup_itemName _ _ _ Hnd D1 D2 eq_refl) as Heq. injection Heq as ->.
    pose proof (proj1 (Forall_forall _ _) IH _ (proj2 (list_elem_of_In _ _) D1)) as Hsub.
    simpl in Hsub. eapply Hsub; [|exact S1|exact S2].
    apply (proj1 (forallb_forall _ _) Hall) in D1. simpl in D1.
    apply andb_true_iff in D1 as [D1 Hsuball]. apply andb_true_iff in D1 as [_ Hsubnd].
    unfold wellFormedTree. rewrite Hsubnd, Hsuball. reflexivity.
Qed.

Lemma wellFormedTree_unique items :
  wellFormedTree items = true -> forall base, unique_below base items.
Proof.
  apply wellFormedTree_unique_of_items. apply Forall_forall. intros item _.
  induction item as [name r|name access sub IH] using Dirent_nested_ind; [exact I|].
  apply wellFormedTree_unique_of_items. exact IH.
Qed.

(** A read failure never leaves the walk: only a directory that cannot
    be listed does. *)
Lemma readItem_completes item : forall base st,
  listable item = true -> fst (readItem base item st) = None.
Proof.
  induction item as [name read|name access items IH] using Dirent_nested_ind;
    intros base st Hl.
  - destruct read; reflexivity.
  - rewrite readItem_DirItem. destruct access; simpl in *; try reflexivity; try discriminate.
    generalize (relativePath base name) as rel. intros rel.
    revert st. induction IH as [|item rest Hitem _ IHrest]; intros st; [reflexivity|].
    simpl in Hl. apply andb_true_iff in Hl as [Hi Hr]. simpl.
    specialize (Hitem rel st Hi). destruct (readItem rel item st) as [[e|] st1];
      [discriminate | apply IHrest; exact Hr].
Qed.

Lemma readItems_completes items : forall base st,
  forallb listable items = true -> fst (readItems base items st) = None.
Proof.
  induction items as [|item rest IH]; intros base st Hl; [reflexivity|].
  simpl in Hl. apply andb_true_iff in Hl as [Hi Hr]. simpl.
  pose proof (readItem_completes item base st Hi) as H.
  destruct (readItem base item st) as [[e|] st1]; [discriminate | apply IH; exact Hr].
Qed.

End Materializer.

(** ** The Removal Filter *)

Module Removal.

Import Materializer.

(** One iteration of [for (const fileToRemove of filesToRemove)]:
    [if (files[fileToRemove])] reads through the prototype chain, and
    [delete files[fileToRemove]] removes an own property only. *)
Definition removeOne (st : Files * list LogLine) (fileToRemove : list N)
  : Files * list LogLine :=
  if truthyAt (fst st) fileToRemove
  then (deleteKey fileToRemove (fst st), snd st ++ [LogRemoved fileToRemove])
  else (fst st, snd st ++ [WarnNotFound fileToRemove]).

(** [removeFiles(files, filesToRemove)].  The source deletes the keys of
    the object it is given and returns that same object; the returned
    object is the state of that object after the call.  [None] is a
    missing ([undefined]) list. *)
Definition removeFiles (files : Files) (filesToRemove : option (list (list N)))
  : Files * list LogLine :=
  match filesToRemove with
  | None | Some [] => (files, [])
  | Some l => fold_left removeOne l (files, [LogRemoving])
  end.

Lemma Files_eq (a b : Files) : own a = own b -> proto a = proto b -> a = b.
Proof. destruct a, b. simpl. intros -> ->. reflexivity. Qed.

Lemma truthyAt_own files f e : own files !! f = Some e -> truthyAt files f = true.
Proof.
  intros H. unfold truthyAt. apply orb_true_iff. left.
  apply bool_decide_eq_true. exists e. exact H.
Qed.

Lemma truthyAt_false files f : truthyAt files f = false -> own files !! f = None.
Proof.
  unfold truthyAt. intros H. apply orb_false_iff in H as [H _].
  apply bool_decide_eq_false in H. destruct (own files !! f); [|reflexivity].
  exfalso. apply H. eauto.
Qed.

Lemma truthyAt_absent files f :
  own files !! f = None -> truthyAt files f = inheritedTruthy files f.
Proof.
  intros H. unfold truthyAt. rewrite H.
  rewrite bool_decide_eq_false_2 by (intros [? ?]; discriminate). reflexivity.
Qed.

(** One iteration leaves no own property at the path, whatever it
    printed, and never touches the prototype. *)
Lemma removeOne_own st f : own (fst (removeOne st f)) = delete f (own (fst st)).
Proof.
  unfold removeOne. destruct (truthyAt (fst st) f) eqn:E; simpl; [reflexivity|].
  symmetry. apply delete_id. apply truthyAt_false. exact E.
Qed.

Lemma removeOne_proto st f : proto (fst (removeOne st f)) = proto (fst st).
Proof. unfold removeOne. destruct (truthyAt (fst st) f); reflexivity. Qed.

Lemma removeLoop_proto l : forall st,
  proto (fst (fold_left removeOne l st)) = proto (fst st).
Proof.
  induction l as [|f l IH]; intros st; simpl; [reflexivity|].
  rewrite IH. apply removeOne_proto.
Qed.

Lemma removeLoop_lookup l : forall st p,
  own (fst (fold_left removeOne l st)) !! p =
  if decide (p ∈ l) then None else own (fst st) !! p.
Proof.
  induction l as [|f l IH]; intros st p; simpl.
  - destruct (decide (p ∈ [])) as [H|_]; [inversion H | reflexivity].
  - rewrite IH, removeOne_own.
    destruct (decide (p ∈ l)) as [Hin|Hnin].
    + destruct (decide (p ∈ f :: l)) as [_|Hn]; [reflexivity|].
      exfalso. apply Hn. right. exact Hin.
    + destruct (decide (p ∈ f :: l)) as [H|Hn].
      * apply elem_of_cons in H as [->|H]; [|contradiction].
        apply lookup_delete_eq.
      * assert (f <> p) by (intros ->; apply Hn; left).
        apply lookup_delete_ne; assumption.
Qed.

Lemma removeFiles_lookup files l p :
  own (fst (removeFiles files (Some l))) !! p =
  if decide (p ∈ l) then None else own files !! p.
Proof.
  destruct l as [|f l]; [|unfold removeFiles; apply removeLoop_lookup].
  simpl. destruct (decide (p ∈ [])) as [H|_]; [inversion H | reflexivity].
Qed.

Lemma removeFiles_proto files l : proto (fst (removeFiles files l)) = proto files.
Proof.
  destruct l as [[|f l]|]; try reflexivity.
  unfold removeFiles. apply removeLoop_proto.
Qed.

(** The inherited answer depends on the prototype only, which the loop
    never changes. *)
Lemma inheritedTruthy_proto a b f :
  proto a = proto b -> inheritedTruthy a f = inheritedTruthy b f.
Proof. unfold inheritedTruthy. intros ->. reflexivity. Qed.

(** The console lines of the loop: what was there, then one line per
    requested path. *)
Lemma removeLoop_log l : forall st line,
  In line (snd (fold_left removeOne l st)) <->
  In line (snd st) \/
  exists pre f post, l = pre ++ f :: post /\
    line = if truthyAt (fst (fold_left removeOne pre st)) f
           then LogRemoved f
           else WarnNotFound f.
Proof.
  induction l as [|f l IH]; intros st line; simpl.
  - split; [auto | intros [H|(pre & f & post & H & _)]; [exact H|]].
    destruct pre; discriminate.
  - rewrite IH. split.
    + intros [H|(pre & g & post & -> & ->)].
      * unfold removeOne in H. destruct (truthyAt (fst st) f) eqn:E; simpl in H;
          apply in_app_or in H as [H|[<-|[]]]; auto;
          right; exists [], f, l; simpl; rewrite E; auto.
      * right. exists (f :: pre), g, post. auto.
    + intros [H|(pre & g & post & Heq & ->)].
      * left. unfold removeOne. destruct (truthyAt (fst st) f); simpl; apply in_or_app; auto.
      * destruct pre as [|x pre]; simpl in Heq; injection Heq as <- ->.
        -- left. simpl. unfold removeOne.
           destruct (truthyAt (fst st) f); simpl; apply in_or_app; right; left; reflexivity.
        -- right. exists pre, g, post. auto.
Qed.

End Removal.

(** ** The Request Builder *)

Module Url.

Local Open Scope string_scope.
Local Open Scope char_scope.

(** The strings of this part are the UTF-8 bytes of the JavaScript
    strings: [URLSearchParams] serialises a value byte by byte, and every
    operation [scaffold] applies to these strings (splitting at a full
    stop, dropping every code unit outside [a-zA-Z0-9], concatenation)
    acts on ASCII bytes only. *)

Definition isAlnum (a : ascii) : bool :=
  let n := N_of_ascii a in
  ((48 <=? n) && (n <=? 57) || (65 <=? n) && (n <=? 90) || (97 <=? n) && (n <=? 122))%N.

(** The bytes the [application/x-www-form-urlencoded] serialiser leaves
    as they are: ASCII alphanumerics and [*], [-], [.], [_]. *)
Definition isUnreserved (a : ascii) : bool :=
  isAlnum a || Ascii.eqb a "*" || Ascii.eqb a "-" || Ascii.eqb a "." || Ascii.eqb a "_".

Definition hexDigit (n : N) : ascii :=
  if (n <? 10)%N then ascii_of_N (48 + n) else ascii_of_N (55 + n).

(** The serialisation of one byte: itself, [+] for a space, or [%XX]. *)
Definition encodeByte (a : ascii) : string :=
  if isUnreserved a then String a EmptyString
  else if Ascii.eqb a " " then String "+" EmptyString
  else String "%" (String (hexDigit (N_of_ascii a / 16))
                    (String (hexDigit (N_of_ascii a mod 16)) EmptyString)).

Fixpoint urlencode (s : string) : string :=
  match s with
  | EmptyString => EmptyString
  | String a s' => encodeByte a +:+ urlencode s'
  end.

(** [name=value] *)
Definition serializePair (kv : string * string) : string :=
  urlencode (fst kv) +:+ String "=" (urlencode (snd kv)).

(** [URLSearchParams.prototype.toString]: the pairs in insertion order,
    joined by [&]. *)
Definition toString (params : list (string * string)) : string :=
  String.concat (String "&" EmptyString) (map serializePair params).

(** The [options] argument of [buildSpringInitializrUrl]: a field bound
    with a default in the destructuring pattern may be [undefined]. *)
Record Options : Type := {
  groupId : string;
  artifactId : string;
  packageName : string;
  type : option string;
  javaVersion : option string;
  platformVersion : option string;
  packaging : option string;
  dependencies : option string;
  description : option string
}.

Definition endpoint : string := "https://start.spring.io/starter.zip?"%string.

(** The object handed to [new URLSearchParams], key by key. *)
Definition searchParams (options : Options) : list (string * string) :=
  [ ("type", default "gradle-project" (type options));
    ("language", "java");
    ("platformVersion", default "3.5.3" (platformVersion options));
    ("packaging", default "jar" (packaging options));
    ("javaVersion", default "21" (javaVersion options));
    ("groupId", groupId options);
    ("artifactId", artifactId options);
    ("name", artifactId options);
    ("description", default "Spring Boot project" (description options));
    ("packageName", packageName options);
    ("dependencies", default "web" (dependencies options)) ]%string.

Definition buildSpringInitializrUrl (options : Options) : string :=
  endpoint +:+ toString (searchParams options).

(** *** The parameters [scaffold] passes *)

(** [module.fieldValues] *)
Record FieldValues : Type := {
  fv_javaVersion : option string;
  fv_springBootVersion : option string;
  fv_buildTool : option string;
  fv_packaging : option string;
  fv_dependencies : option string
}.

(** [moduleConfig.generation.baseTemplate.config] *)
Record BaseTemplateConfig : Type := {
  bt_build : option string;
  bt_javaVersion : option string;
  bt_platformVersion : option string;
  bt_packaging : option string;
  bt_dependencies : option string
}.

Definition noFieldValues : FieldValues :=
  {| fv_javaVersion := None; fv_springBootVersion := None; fv_buildTool := None;
     fv_packaging := None; fv_dependencies := None |}.

Definition noBaseTemplateConfig : BaseTemplateConfig :=
  {| bt_build := None; bt_javaVersion := None; bt_platformVersion := None;
     bt_packaging := None; bt_dependencies := None |}.

(** [a || b || last] on strings that may be [undefined]: the first
    operand that is neither [undefined] nor empty, else the last. *)
Definition truthy (v : option string) : option string :=
  match v with
  | Some EmptyString | None => None
  | Some s => Some s
  end.

Definition orElse (a b : option string) (last : string) : string :=
  match truthy a with
  | Some s => s
  | None => match truthy b with
            | Some s => s
            | None => last
            end
  end.

(** [s.replace(/[^a-zA-Z0-9]/g, '')] *)
Fixpoint stripNonAlnum (s : string) : string :=
  match s with
  | EmptyString => EmptyString
  | String a s' => if isAlnum a then String a (stripNonAlnum s') else stripNonAlnum s'
  end.

(** [s.split(sep)] for a separator of one character. *)
Fixpoint splitOn (sep : ascii) (s : string) : list string :=
  match s with
  | EmptyString => [EmptyString]
  | String a s' =>
      if Ascii.eqb a sep
      then EmptyString :: splitOn sep s'
      else match splitOn sep s' with
           | part :: parts => String a part :: parts
           | [] => [String a EmptyString]
           end
  end.

(** The part of [scaffold] that runs before the temporary directory is
    created: the [options] object it builds. *)
Definition scaffoldOptions (domain moduleName' : string)
    (fieldValues : FieldValues) (baseTemplateConfig : BaseTemplateConfig) : Options :=
  let domainParts := map stripNonAlnum (splitOn "." domain) in
  let reversedDomain := String.concat (String "." EmptyString) (rev domainParts) in
  let moduleName := stripNonAlnum moduleName' in
  let groupId := reversedDomain in
  let artifactId := (moduleName' +:+ "-api")%string in
  let packageName := groupId +:+ String "." moduleName in
  let buildTool := orElse (fv_buildTool fieldValues) (bt_build baseTemplateConfig) "gradle" in
  let projectType :=
    if String.eqb buildTool "maven" then "maven-project"%string else "gradle-project"%string in
  {| groupId := groupId;
     artifactId := artifactId;
     packageName := packageName;
     type := Some projectType;
     javaVersion :=
       Some (orElse (fv_javaVersion fieldValues) (bt_javaVersion baseTemplateConfig) "21");
     platformVersion :=
       Some (orElse (fv_springBootVersion fieldValues)
                    (bt_platformVersion baseTemplateConfig) "3.5.3");
     packaging :=
       Some (orElse (fv_packaging fieldValues) (bt_packaging baseTemplateConfig) "jar");
     dependencies :=
       Some (orElse (fv_dependencies fieldValues)
                    (bt_dependencies baseTemplateConfig) "web,lombok");
     description := Some ("Spring Boot project for " +:+ moduleName')%string |}.

(** [module.fieldValues || {}] and
    [moduleConfig.generation?.baseTemplate?.config || {}]. *)
Definition scaffoldUrl (domain moduleName : string)
    (fieldValues : option FieldValues) (baseTemplateConfig : option BaseTemplateConfig)
  : string :=
  buildSpringInitializrUrl
    (scaffoldOptions domain moduleName
       (default noFieldValues fieldValues)
       (default noBaseTemplateConfig baseTemplateConfig)).

(** *** Reading a query string back *)

(** The receiving side of the serialisation: the query is cut at [&],
    each part at its first [=], and both sides are percent-decoded with
    [+] read as a space. *)

Definition unhex (a : ascii) : option N :=
  let n := N_of_ascii a in
  if ((48 <=? n) && (n <=? 57))%N then Some (n - 48)%N
  else if ((65 <=? n) && (n <=? 70))%N then Some (n - 55)%N
  else if ((97 <=? n) && (n <=? 102))%N then Some (n - 87)%N
  else None.

Fixpoint urldecode (s : string) : string :=
  match s with
  | EmptyString => EmptyString
  | String a t =>
      if Ascii.eqb a "+" then String " " (urldecode t)
      else if Ascii.eqb a "%" then
        match t with
        | String h (String l t') =>
            match unhex h, unhex l with
            | Some x, Some y => String (ascii_of_N (16 * x + y)) (urldecode t')
            | _, _ => String a (urldecode t)
            end
        | _ => String a (urldecode t)
        end
      else String a (urldecode t)
  end.

(** The part before the first [sep] and the part after it. *)
Fixpoint cutAt (sep : ascii) (s : string) : string * string :=
  match s with
  | EmptyString => (EmptyString, EmptyString)
  | String a t =>
      if Ascii.eqb a sep then (EmptyString, t)
      else let '(k, v) := cutAt sep t in (String a k, v)
  end.

Definition isEmpty (s : string) : bool :=
  match s with EmptyString => true | _ => false end.

Definition parsePair (part : string) : string * string :=
  let '(k, v) := cutAt "=" part in (urldecode k, urldecode v).

Definition parseQuery (query : string) : list (string * string) :=
  map parsePair (List.filter (fun part => negb (isEmpty part)) (splitOn "&" query)).

Fixpoint contains (a : ascii) (s : string) : bool :=
  match s with
  | EmptyString => false
  | String b t => Ascii.eqb b a || contains a t
  end.

Lemma append_cons a s t : String a s +:+ t = String a (s +:+ t).
Proof. reflexivity. Qed.

Lemma append_inj_l p s t : p +:+ s = p +:+ t -> s = t.
Proof. induction p as [|a p IH]; simpl; intros H; [exact H | injection H as H; auto]. Qed.

Lemma contains_append a s t : contains a (s +:+ t) = contains a s || contains a t.
Proof.
  induction s as [|b s IH]; simpl; [reflexivity|]. rewrite IH. apply orb_assoc.
Qed.

(** One byte at a time: the serialisation never produces [&] or [=], and
    decoding undoes it. *)
Lemma encodeByte_no_separator a :
  contains "&" (encodeByte a) = false /\ contains "=" (encodeByte a) = false.
Proof.
  destruct a as [b0 b1 b2 b3 b4 b5 b6 b7].
  destruct b0, b1, b2, b3, b4, b5, b6, b7; split; vm_compute; reflexivity.
Qed.

Lemma urldecode_encodeByte a t :
  urldecode (encodeByte a +:+ t) = String a (urldecode t).
Proof.
  destruct a as [b0 b1 b2 b3 b4 b5 b6 b7].
  destruct b0, b1, b2, b3, b4, b5, b6, b7; reflexivity.
Qed.

Lemma urlencode_no_separator s :
  contains "&" (urlencode s) = false /\ contains "=" (urlencode s) = false.
Proof.
  induction s as [|a s [IH1 IH2]]; simpl; [auto|].
  rewrite !contains_append, IH1, IH2.
  destruct (encodeByte_no_separator a) as [-> ->]. auto.
Qed.

Lemma urldecode_urlencode s : urldecode (urlencode s) = s.
Proof.
  induction s as [|a s IH]; simpl; [reflexivity|].
  rewrite urldecode_encodeByte, IH. reflexivity.
Qed.

Lemma cutAt_append sep k v :
  contains sep k = false -> cutAt sep (k +:+ String sep v) = (k, v).
Proof.
  induction k as [|a k IH]; simpl; intros H.
  - rewrite Ascii.eqb_refl. reflexivity.
  - apply orb_false_iff in H as [Ha Hk]. rewrite Ha, (IH Hk). reflexivity.
Qed.

Lemma splitOn_none sep s : contains sep s = false -> splitOn sep s = [s].
Proof.
  induction s as [|a s IH]; simpl; intros H; [reflexivity|].
  apply orb_false_iff in H as [Ha Hs]. rewrite Ha, (IH Hs). reflexivity.
Qed.

Lemma splitOn_append sep s t :
  contains sep s = false -> splitOn sep (s +:+ String sep t) = s :: splitOn sep t.
Proof.
  induction s as [|a s IH]; simpl; intros H.
  - rewrite Ascii.eqb_refl. reflexivity.
  - apply orb_false_iff in H as [Ha Hs]. rewrite Ha, (IH Hs). reflexivity.
Qed.

Lemma serializePair_shape kv :
  contains "&" (serializePair kv) = false /\ isEmpty (serializePair kv) = false /\
  parsePair (serializePair kv) = kv.
Proof.
  destruct kv as [k v]. unfold serializePair, parsePair. simpl fst. simpl snd.
  destruct (urlencode_no_separator k) as [Hk1 Hk2].
  destruct (urlencode_no_separator v) as [Hv1 Hv2].
  split; [|split].
  - rewrite contains_append. simpl. rewrite Hk1, Hv1. reflexivity.
  - destruct (urlencode k); reflexivity.
  - rewrite cutAt_append by exact Hk2. rewrite !urldecode_urlencode. reflexivity.
Qed.

(** Parsing the serialisation of a list of pairs gives the list back. *)
Lemma parseQuery_toString params : parseQuery (toString params) = params.
Proof.
  unfold parseQuery, toString.
  induction params as [|kv rest IH]; [reflexivity|].
  destruct (serializePair_shape kv) as (Hamp & Hne & Hparse).
  destruct rest as [|kv' rest].
  - simpl. rewrite splitOn_none by exact Hamp. simpl. rewrite Hne. simpl.
    rewrite Hparse. reflexivity.
  - change (String.concat (String "&" EmptyString) (map serializePair (kv :: kv' :: rest)))
      with (serializePair kv +:+
            String "&" (String.concat (String "&" EmptyString) (map serializePair (kv' :: rest)))).
    rewrite splitOn_append by exact Hamp. simpl List.filter. rewrite Hne. simpl negb.
    cbn [map]. rewrite Hparse. f_equal. exact IH.
Qed.

Lemma toString_inj p q : toString p = toString q -> p = q.
Proof.
  intros H. rewrite <- (parseQuery_toString p), <- (parseQuery_toString q), H. reflexivity.
Qed.

End Url.

(** ** The file system *)

Module Fs.

(** What exists at a path. *)
Inductive Node : Type := File | Directory.

(** The paths that exist, each with its kind. *)
Abbreviation FileSystem := (gmap (list N) Node).

(** [fs.unlinkSync(path)]: removes a file; throws when there is none. *)
Definition unlinkSync (path : list N) (fs : FileSystem) : Error + FileSystem :=
  match fs !! path with
  | Some File => inr (delete path fs)
  | Some Directory => inl (SystemError "EPERM: operation not permitted, unlink")
  | None => inl (SystemError "ENOENT: no such file or directory, unlink")
  end.

(** [p] is [dir] or lies below it. *)
Definition isUnder (dir p : list N) : bool :=
  bool_decide (p = dir) || bool_decide (take (S (length dir)) p = dir ++ [47]).

(** A successful [fs.rmSync(dir, { recursive: true, force: true })]. *)
Definition rmTree (dir : list N) (fs : FileSystem) : FileSystem :=
  filter (fun kv => isUnder dir (fst kv) = false) fs.

Lemma rmTree_lookup dir fs p :
  rmTree dir fs !! p = if isUnder dir p then None else fs !! p.
Proof.
  unfold rmTree. destruct (isUnder dir p) eqn:E.
  - apply map_lookup_filter_None. right. intros x _. simpl. congruence.
  - destruct (fs !! p) as [x|] eqn:Hp.
    + apply map_lookup_filter_Some. split; [exact Hp | exact E].
    + apply map_lookup_filter_None. left. exact Hp.
Qed.

End Fs.

(** ** The Archive Fetcher *)

Module Fetcher.

Import Fs.

(** How the transfer of a [200] response into the write stream ends. *)
Inductive Transfer : Type :=
| Finished
    (* the write stream emits 'finish' *)
| OpenFails (message : string)
    (* the write stream emits 'error' because the file could not be
       opened: nothing was created *)
| WriteFails (message : string)
    (* the write stream emits 'error' after the file was opened *)
| ResponseAborted (requestError : option string).
    (* the connection is lost during the transfer: the response emits
       its events on [res], on which the source registers no listener,
       and [pipe] does not end the write stream; [requestError] is the
       message of an 'error' event on the request, should the runtime
       emit one as well *)

(** What the single [https.get] meets. *)
Inductive Exchange : Type :=
| RequestFails (message : string)          (* 'error' on the request *)
| Responds (statusCode : N) (transfer : Transfer).

(** The state of a promise once nothing more can happen to it;
    [Pending] carries the exception that escaped an event listener, if
    one did. *)
Inductive Settlement (A : Type) : Type :=
| Fulfilled (value : A)
| Rejected (reason : Error)
| Pending (uncaught : option Error).

Arguments Fulfilled {A} value.
Arguments Rejected {A} reason.
Arguments Pending {A} uncaught.

Definition settled {A} (s : Settlement A) : bool :=
  match s with Pending _ => false | _ => true end.

Record Run (A : Type) : Type := {
  settlement : Settlement A;
  disk : FileSystem;
  console : list LogLine;
  requests : list string       (* the URLs passed to [https.get], in order *)
}.

Arguments settlement {A} r.
Arguments disk {A} r.
Arguments console {A} r.
Arguments requests {A} r.

(** [downloadSpringBootZip(url, outputPath)] *)
Definition downloadSpringBootZip (url : string) (outputPath : list N)
    (exchange : Exchange) (fs : FileSystem) : Run (list N) :=
  let run s d log :=
    {| settlement := s; disk := d; console := LogDownloading url :: log;
       requests := [url] |} in
  match exchange with
  | RequestFails message => run (Rejected (DownloadError message)) fs []
  | Responds statusCode transfer =>
      if negb (statusCode =? 200)
      then run (Rejected (StatusError statusCode)) fs []
      else
        match transfer with
        | Finished =>
            run (Fulfilled outputPath) (<[outputPath := File]> fs)
                [LogDownloaded outputPath]
        | OpenFails message =>
            (* fs.unlinkSync(outputPath); reject(err); *)
            match unlinkSync outputPath fs with
            | inr fs' => run (Rejected (SystemError message)) fs' []
            | inl e => run (Pending (Some e)) fs []
            end
        | WriteFails message =>
            match unlinkSync outputPath (<[outputPath := File]> fs) with
            | inr fs' => run (Rejected (SystemError message)) fs' []
            | inl e => run (Pending (Some e)) (<[outputPath := File]> fs) []
            end
        | ResponseAborted None =>
            run (Pending None) (<[outputPath := File]> fs) []
        | ResponseAborted (Some message) =>
            run (Rejected (DownloadError message)) (<[outputPath := File]> fs) []
        end
  end.

End Fetcher.

(** ** The Orchestration Wrapper *)

Module Scaffold.

Import Materializer Removal Url Fs Fetcher.

Record ModuleConfig : Type := {
  baseTemplateConfig : option BaseTemplateConfig;
      (* moduleConfig.generation?.baseTemplate?.config *)
  filesRemove : option (list (list N))
      (* moduleConfig.generation?.files?.remove *)
}.

Record Context : Type := {
  domain : string;                      (* context.project.domain *)
  moduleName : string;                  (* context.module.name *)
  fieldValues : option FieldValues      (* context.module.fieldValues *)
}.

(** The outcome of [fs.rmSync(tempDir, { recursive: true, force: true })]:
    the tree is gone, or the call throws after removing some paths. *)
Inductive RmResult : Type :=
| RmDone
| RmThrows (message : string) (removed : list (list N)).

(** Everything the run meets outside the program. *)
Record Env : Type := {
  tmpdir : list N;                 (* os.tmpdir() *)
  mkdtemp : string + list N;       (* fs.mkdtempSync throws, or the six characters it appends *)
  exchange : Exchange;
  mkdir : option string;           (* fs.mkdirSync(extractPath, ...) throws *)
  archive : ArchiveEnv;
  rm : RmResult
}.

(** The entries [zip.extractAllTo(extractPath, true)] leaves on disk. *)
Fixpoint nodesOf (dir : list N) (item : Dirent) : list (list N * Node) :=
  match item with
  | FileItem name _ => [(join dir name, File)]
  | DirItem name Missing _ => []
  | DirItem name _ items =>
      (join dir name, Directory)
        :: (fix each (items : list Dirent) : list (list N * Node) :=
              match items with
              | [] => []
              | item :: rest => nodesOf (join dir name) item ++ each rest
              end) items
  end.

Definition extractAllTo (extractPath : list N) (archive : ArchiveEnv) (fs : FileSystem)
  : FileSystem :=
  match admZipInstalled archive, unpack archive with
  | true, Unpacked _ items =>
      fold_left (fun fs kv => <[fst kv := snd kv]> fs)
                (flat_map (nodesOf extractPath) items) fs
  | _, _ => fs
  end.

Definition urlOf (moduleConfig : ModuleConfig) (context : Context) : string :=
  scaffoldUrl (domain context) (moduleName context)
              (fieldValues context) (baseTemplateConfig moduleConfig).

(** The body of the [try] block, run with the temporary directory in
    place. *)
Definition pipeline (moduleConfig : ModuleConfig) (context : Context) (env : Env)
    (tempDir : list N) (fs : FileSystem) : Run Files :=
  let zipPath := join tempDir (js "starter.zip") in
  let extractPath := join tempDir (js "extracted") in
  let d := downloadSpringBootZip (urlOf moduleConfig context) zipPath (exchange env) fs in
  let stop s fs' log :=
    {| settlement := s; disk := fs'; console := console d ++ log;
       requests := requests d |} in
  match settlement d with
  | Pending uncaught => stop (Pending uncaught) (disk d) []
  | Rejected e => stop (Rejected e) (disk d) []
  | Fulfilled _ =>
      match mkdir env with
      | Some message => stop (Rejected (SystemError message)) (disk d) []
      | None =>
          let fs1 := <[extractPath := Directory]> (disk d) in
          let fs2 := extractAllTo extractPath (archive env) fs1 in
          match extractZipToMemory (archive env) with
          | (inl e, log) => stop (Rejected e) fs2 log
          | (inr files, log) =>
              let filesToRemove := default [] (filesRemove moduleConfig) in
              let cleaned := removeFiles files (Some filesToRemove) in
              stop (Fulfilled (fst cleaned)) fs2
                   (log ++ snd cleaned ++ [LogGenerated (size (own (fst cleaned)))])
          end
      end
  end.

(** The [finally] block: [rmSync] inside its own [try]/[catch]. *)
Definition cleanup {A} (env : Env) (tempDir : list N) (r : Run A) : Run A :=
  match rm env with
  | RmDone =>
      {| settlement := settlement r; disk := rmTree tempDir (disk r);
         console := console r; requests := requests r |}
  | RmThrows message removed =>
      {| settlement := settlement r;
         disk := fold_left (fun fs p => delete p fs) removed (disk r);
         console := console r ++ [WarnCleanup tempDir message];
         requests := requests r |}
  end.

(** [path.join(os.tmpdir(), 'genesis3-spring-')] followed by the
    characters [mkdtempSync] appends. *)
Definition stagingDir (env : Env) (suffix : list N) : list N :=
  join (tmpdir env) (js "genesis3-spring-" ++ suffix).

(** [scaffold(moduleConfig, context)].  A promise that is never settled
    leaves the [await] suspended: the [finally] block is not reached. *)
Definition scaffold (moduleConfig : ModuleConfig) (context : Context) (env : Env)
    (fs : FileSystem) : Run Files :=
  match mkdtemp env with
  | inl message =>
      {| settlement := Rejected (SystemError message); disk := fs;
         console := [LogParameters]; requests := [] |}
  | inr suffix =>
      let tempDir := stagingDir env suffix in
      let r := pipeline moduleConfig context env tempDir (<[tempDir := Directory]> fs) in
      let r' := if settled (settlement r) then cleanup env tempDir r else r in
      {| settlement := settlement r'; disk := disk r';
         console := LogParameters :: console r'; requests := requests r' |}
  end.

End Scaffold.

(** * Properties *)

Import Classify Materializer.

(** ** Classification *)

Lemma entryOf_executable name bytes :
  executable (entryOf name bytes) = shouldBeExecutable name.
Proof. unfold entryOf. destruct (isBinary name); reflexivity. Qed.

Lemma entryOf_type name bytes :
  type (entryOf name bytes) = if isBinary name then binary else text.
Proof. unfold entryOf. destruct (isBinary name); reflexivity. Qed.

Lemma no_line_terminator_js_run_sh : no_line_terminator (js "run.sh").
Proof. repeat constructor. Defined.

(** C3, as written, fails on the code: the executable pattern carries
    the [i] flag, so [GRADLEW] is marked executable although it is
    neither of the two launcher names as written nor ends in [.sh]; and
    [.] does not match a line feed, so a name that ends in [.sh] after a
    line feed is not marked executable. *)
Lemma executable_rule_as_written_fails :
  (executable (entryOf (js "GRADLEW") []) = true /\
   is_launcher_or_shell_script (js "GRADLEW") = false) /\
  (executable (entryOf (js "a" ++ [10] ++ js "b.sh") []) = false /\
   is_launcher_or_shell_script (js "a" ++ [10] ++ js "b.sh") = true).
Proof. repeat split; vm_compute; reflexivity. Qed.

(** C3 (amended): an extracted file is binary iff its name ends, up to
    case, in one of the denylisted extensions, and text otherwise; for a
    name without line terminators it is marked executable iff the name
    is, up to case, [gradlew] or [gradlew.bat] or ends in [.sh].
    [app.jar] is binary, [gradlew] executable, [README.md] text and not
    executable. *)
Theorem classification_policy (name bytes : list N) :
  (type (entryOf name bytes) = binary <-> has_denylisted_extension name = true) /\
  (type (entryOf name bytes) = text <-> has_denylisted_extension name = false) /\
  (no_line_terminator name ->
   (executable (entryOf name bytes) = true <-> is_launcher_or_shell_script_ci name = true)) /\
  type (entryOf (js "app.jar") bytes) = binary /\
  executable (entryOf (js "gradlew") bytes) = true /\
  type (entryOf (js "README.md") bytes) = text /\
  executable (entryOf (js "README.md") bytes) = false.
Proof.
  rewrite entryOf_executable, !entryOf_type.
  pose proof (isBinary_spec name) as Hb.
  split; [|split; [|split]].
  - split.
    + destruct (isBinary name); [intros _; apply Hb; reflexivity | discriminate].
    + intros H. apply Hb in H. rewrite H. reflexivity.
  - split.
    + destruct (isBinary name) eqn:E; [discriminate|]. intros _.
      destruct (has_denylisted_extension name); [|reflexivity].
      symmetry. apply Hb. reflexivity.
    + intros H. destruct (isBinary name); [|reflexivity].
      rewrite (proj1 Hb eq_refl) in H. discriminate.
  - intros Hlt. apply shouldBeExecutable_spec. exact Hlt.
  - repeat split.
Qed.

Lemma classification_policy_witness :
  no_line_terminator (js "run.sh") /\
  type (entryOf (js "run.sh") [35; 33]) = text /\
  executable (entryOf (js "run.sh") [35; 33]) = true.
Proof.
  pose proof (classification_policy (js "run.sh") [35; 33]) as (_ & Ht & He & _).
  split; [exact no_line_terminator_js_run_sh|].
  split; [apply Ht | apply (He no_line_terminator_js_run_sh)]; vm_compute; reflexivity.
Defined.

(** ** Materialization *)

(** The model [extractZipToMemory] returns is the one the walk built
    from the empty object. *)
Lemma extractZipToMemory_returns env files log :
  extractZipToMemory env = (inr files, log) ->
  exists access items log',
    unpack env = Unpacked access items /\
    readDirectoryRecursive access items [] (emptyFiles, []) = (None, (files, log')) /\
    log = LogExtracting :: log' ++ [LogExtracted (size (own files))].
Proof.
  unfold extractZipToMemory. destruct (admZipInstalled env); simpl; [|discriminate].
  destruct (unpack env) as [m|access items]; [discriminate|].
  destruct (readDirectoryRecursive access items [] (emptyFiles, [])) as [[e|] [files' log']] eqn:E;
    [discriminate|].
  intros H. injection H as <- <-. exists access, items, log'. repeat split. exact E.
Qed.

(** What the object holds after a walk that started from [{}]: no own
    property [__proto__]; own properties and prototype come from files
    that were read, each under its relative path, the prototype from a
    file whose relative path is [__proto__]; every file that was read
    left its mark, and every failed read its warning. *)
Lemma walk_from_empty items files log :
  readItems [] items (emptyFiles, []) = (None, (files, log)) ->
  own files !! protoKey = None /\
  (forall p e, own files !! p = Some e ->
     p <> protoKey /\
     exists n bytes, file_at [] items p n (ReadOk bytes) /\ e = entryOf n bytes) /\
  (forall e, proto files = Some e ->
     exists n bytes, file_at [] items protoKey n (ReadOk bytes) /\ e = entryOf n bytes) /\
  (forall p n bytes, file_at [] items p n (ReadOk bytes) ->
     p <> protoKey -> is_Some (own files !! p)) /\
  (forall n bytes, file_at [] items protoKey n (ReadOk bytes) -> is_Some (proto files)) /\
  (forall p n message, file_at [] items p n (ReadThrows message) ->
     In (WarnCouldNotRead p message) log) /\
  (forall l, In l log ->
     exists p n message,
       l = WarnCouldNotRead p message /\ file_at [] items p n (ReadThrows message)).
Proof.
  intros Hrun. pose proof (readItems_post _ _ _ _ Hrun) as [K L R W O G P].
  cbn [fst snd] in *.
  assert (Hown : own files !! protoKey = None) by (rewrite P; apply lookup_empty).
  pose proof (assigned_lookup files) as Ha.
  assert (O' : forall p e, assigned files !! p = Some e ->
            exists n bytes, file_at [] items p n (ReadOk bytes) /\ e = entryOf n bytes).
  { intros p e H. destruct (O p e H) as [H0|H0]; [|exact H0].
    change ((∅ : gmap (list N) FileEntry) !! p = Some e) in H0.
    rewrite lookup_empty in H0. discriminate. }
  split; [exact Hown|]. split; [|split; [|split; [|split; [|split]]]].
  - intros p e H. assert (Hne : p <> protoKey) by (intros ->; congruence).
    split; [exact Hne|]. apply O'. rewrite (Ha p Hown).
    destruct (decide (p = protoKey)); [contradiction | exact H].
  - intros e H. apply O'. rewrite (Ha protoKey Hown).
    destruct (decide (protoKey = protoKey)); [exact H | contradiction].
  - intros p n bytes H Hne. specialize (R p n bytes H). rewrite (Ha p Hown) in R.
    destruct (decide (p = protoKey)); [contradiction | exact R].
  - intros n bytes H. specialize (R protoKey n bytes H). rewrite (Ha protoKey Hown) in R.
    destruct (decide (protoKey = protoKey)); [exact R | contradiction].
  - exact W.
  - intros l H. destruct (G l H) as [[]|H0]. exact H0.
Qed.

(** Every entry the returned object holds, as an own property or as its
    prototype, was built by [entryOf] from a file of the tree. *)
Lemma extractZipToMemory_origin env files log p e :
  extractZipToMemory env = (inr files, log) ->
  own files !! p = Some e \/ proto files = Some e ->
  exists n bytes, e = entryOf n bytes.
Proof.
  intros H Hp. apply extractZipToMemory_returns in H as (access & items & log' & _ & Hrun & _).
  destruct access; simpl in Hrun.
  - apply walk_from_empty in Hrun as (_ & Ho & Hp' & _).
    destruct Hp as [Hp|Hp].
    + destruct (Ho p e Hp) as (_ & n & b & _ & ->). eauto.
    + destruct (Hp' e Hp) as (n & b & _ & ->). eauto.
  - injection Hrun as <- _. destruct Hp as [Hp|Hp]; [|discriminate].
    change ((∅ : gmap (list N) FileEntry) !! p = Some e) in Hp.
    rewrite lookup_empty in Hp. discriminate.
  - discriminate.
Qed.

(** C10: every entry of the returned FileModel that is marked
    executable has kind text, be it held as an own property of the
    object or, for the file named [__proto__], as its prototype. *)
Theorem executable_entries_are_text env files log p e :
  extractZipToMemory env = (inr files, log) ->
  own files !! p = Some e \/ proto files = Some e ->
  executable e = true ->
  type e = text.
Proof.
  intros Hrun Hp He.
  destruct (extractZipToMemory_origin env files log p e Hrun Hp) as (n & bytes & ->).
  rewrite entryOf_executable in He. rewrite entryOf_type.
  rewrite (executable_not_binary n He). reflexivity.
Qed.

Definition sampleTree : list Dirent :=
  [ FileItem (js "gradlew") (ReadOk [35; 33]);
    DirItem (js "gradle") Listed
      [ FileItem (js "wrapper.jar") (ReadOk [80; 75]);
        FileItem (js "locked.txt") (ReadThrows "EACCES") ] ].

Definition sampleArchive : ArchiveEnv :=
  {| admZipInstalled := true; unpack := Unpacked Listed sampleTree |}.

(** The object a run returned, [{}] when it threw. *)
Definition modelOf (r : (Error + Files) * list LogLine) : Files :=
  match fst r with
  | inr files => files
  | inl _ => emptyFiles
  end.

Lemma executable_entries_are_text_witness :
  type (entryOf (js "gradlew") [35; 33]) = text.
Proof.
  apply (executable_entries_are_text sampleArchive
           (modelOf (extractZipToMemory sampleArchive))
           (snd (extractZipToMemory sampleArchive))
           (js "gradlew")).
  - vm_compute. reflexivity.
  - left. vm_compute. reflexivity.
  - vm_compute. reflexivity.
Defined.

(** C8 fails on the code for a file named [__proto__] in the root of the
    archive.  The file is read, and the assignment
    [files[relativePath] = ...] under that name replaces the prototype
    of [files] instead of adding a property: the returned object has no
    key for the file, and the console counts no file, whatever the
    bytes. *)
Theorem file_named_proto_is_not_materialized (bytes : list N) :
  let items := [FileItem (js "__proto__") (ReadOk bytes)] in
  let r := extractZipToMemory {| admZipInstalled := true; unpack := Unpacked Listed items |} in
  file_at [] items (js "__proto__") (js "__proto__") (ReadOk bytes) /\
  forallb listable items = true /\
  wellFormedTree items = true /\
  r = (inr {| own := ∅; proto := Some (entryOf (js "__proto__") bytes) |},
       [LogExtracting; LogExtracted 0]) /\
  own (modelOf r) !! js "__proto__" = None /\
  dom (own (modelOf r)) = ∅.
Proof.
  intros items r. subst items r. split; [|split; [|split; [|split; [|split]]]].
  - apply (file_here [] _ (js "__proto__")). left. reflexivity.
  - reflexivity.
  - vm_compute. reflexivity.
  - reflexivity.
  - reflexivity.
  - reflexivity.
Qed.

(** ** Removal *)

Import Removal.

(** A removed-file line is written for a path that was an own property
    or that the prototype chain answers for. *)
Lemma removeFiles_log_removed files l f :
  In (LogRemoved f) (snd (removeFiles files (Some l))) ->
  is_Some (own files !! f) \/ inheritedTruthy files f = true.
Proof.
  destruct l as [|g l]; [intros []|]. unfold removeFiles.
  intros H. apply removeLoop_log in H as [[H|[]]|(pre & h & post & _ & H)]; [discriminate|].
  destruct (truthyAt (fst (fold_left removeOne pre (files, [LogRemoving]))) h) eqn:E;
    [|discriminate].
  injection H as Hfh. subst h. unfold truthyAt in E. apply orb_true_iff in E as [E|E].
  - apply bool_decide_eq_true in E. rewrite removeLoop_lookup in E. cbn [fst] in E.
    destruct (decide (f ∈ pre)); [destruct E; discriminate | left; exact E].
  - right. rewrite <- E. apply inheritedTruthy_proto. symmetry.
    apply (removeLoop_proto pre (files, [LogRemoving])).
Qed.

(** A warning is written only for a path the prototype chain does not
    answer for. *)
Lemma removeFiles_log_warned files l f :
  In (WarnNotFound f) (snd (removeFiles files (Some l))) ->
  inheritedTruthy files f = false.
Proof.
  destruct l as [|g l]; [intros []|]. unfold removeFiles.
  intros H. apply removeLoop_log in H as [[H|[]]|(pre & h & post & _ & H)]; [discriminate|].
  destruct (truthyAt (fst (fold_left removeOne pre (files, [LogRemoving]))) h) eqn:E;
    [discriminate|].
  injection H as Hfh. subst h. unfold truthyAt in E. apply orb_false_iff in E as [_ E].
  rewrite <- E. apply inheritedTruthy_proto. symmetry.
  apply (removeLoop_proto pre (files, [LogRemoving])).
Qed.

(** The line written at the first occurrence of a requested path. *)
Lemma removeFiles_log_line files l f :
  In f l ->
  In (if truthyAt files f then LogRemoved f else WarnNotFound f)
     (snd (removeFiles files (Some l))).
Proof.
  intros Hin. destruct l as [|g l]; [destruct Hin|]. unfold removeFiles.
  (* the first occurrence of [f] in the list *)
  assert (Hfirst : exists pre post, g :: l = pre ++ f :: post /\ f ∉ pre).
  { revert Hin. generalize (g :: l). intros w. induction w as [|x w IH]; intros Hin; [destruct Hin|].
    destruct (decide (x = f)) as [->|Hne].
    - exists [], w. split; [reflexivity|]. intros H. inversion H.
    - destruct Hin as [Heq|Hin]; [contradiction|].
      destruct (IH Hin) as (pre & post & -> & Hpre).
      exists (x :: pre), post. split; [reflexivity|].
      intros H. apply elem_of_cons in H as [H|H]; [congruence | contradiction]. }
  destruct Hfirst as (pre & post & Heq & Hpre).
  apply removeLoop_log. right. exists pre, f, post. split; [exact Heq|].
  replace (truthyAt (fst (fold_left removeOne pre (files, [LogRemoving]))) f)
    with (truthyAt files f); [reflexivity|].
  unfold truthyAt. rewrite removeLoop_lookup. cbn [fst].
  destruct (decide (f ∈ pre)); [contradiction|]. f_equal.
  apply inheritedTruthy_proto. symmetry. apply (removeLoop_proto pre (files, [LogRemoving])).
Qed.

(** C7 fails on the code for a requested path that names a property of
    [Object.prototype], such as [constructor]: the path is absent from
    the model, and [if (files[fileToRemove])] finds the inherited
    property, so the path is reported as removed and no warning is
    written, for every model that has no file at such a path and for
    the empty model in particular. *)
Theorem removeFiles_reports_inherited_names_as_removed (files : Files) :
  Forall (fun name =>
            let f := js name in
            let once := removeFiles (deleteKey f files) (Some [f]) in
            own (deleteKey f files) !! f = None /\
            snd once = [LogRemoving; LogRemoved f] /\
            ~ In (WarnNotFound f) (snd once))
         objectPrototypeNames /\
  own emptyFiles !! js "constructor" = None /\
  snd (removeFiles emptyFiles (Some [js "constructor"]))
    = [LogRemoving; LogRemoved (js "constructor")].
Proof.
  split; [|split; reflexivity].
  assert (Hall : forall name, In name objectPrototypeNames ->
            truthyAt (deleteKey (js name) files) (js name) = true).
  { intros name Hin. unfold truthyAt, inheritedTruthy.
    rewrite !orb_true_iff. right. right. apply bool_decide_eq_true.
    apply list_elem_of_In. apply in_map. exact Hin. }
  apply List.Forall_forall. intros name Hin. cbn zeta.
  unfold removeFiles, fold_left, removeOne. cbn [fst snd].
  rewrite (Hall name Hin). cbn [fst snd app].
  split; [apply lookup_delete_eq|]. split; [reflexivity|].
  intros [H|[H|[]]]; discriminate.
Qed.

Definition sampleModel : Files :=
  {| own := {[ js "HELP.md" := entryOf (js "HELP.md") [35];
               js "pom.xml" := entryOf (js "pom.xml") [60] ]};
     proto := None |}.

(** ** The request *)

Import Url.

Local Open Scope string_scope.

(** The URL is the endpoint followed by a query that reads back as the
    eleven parameters, in the order of the source. *)
Lemma buildSpringInitializrUrl_query options :
  exists query,
    buildSpringInitializrUrl options = endpoint +:+ query /\
    parseQuery query = searchParams options.
Proof.
  exists (toString (searchParams options)). split; [reflexivity|].
  apply parseQuery_toString.
Qed.

(** No optional field is left to the builder's own default. *)
Definition fullySpecified (o : Options) : Prop :=
  is_Some (type o) /\ is_Some (javaVersion o) /\ is_Some (platformVersion o) /\
  is_Some (packaging o) /\ is_Some (dependencies o) /\ is_Some (description o).

(** C4: a field that neither the module's field values nor the base
    template configuration supplies (it is [undefined] or empty in both)
    is resolved by [scaffold] to its default before the builder is
    called, [scaffold] leaves no optional field to the builder, and the
    URL of a run with nothing supplied carries exactly these defaults. *)
Theorem scaffold_resolves_defaults
    (domain name : string) (fv : FieldValues) (bt : BaseTemplateConfig) :
  let options := scaffoldOptions domain name fv bt in
  (truthy (fv_buildTool fv) = None -> truthy (bt_build bt) = None ->
     type options = Some "gradle-project") /\
  (truthy (fv_javaVersion fv) = None -> truthy (bt_javaVersion bt) = None ->
     javaVersion options = Some "21") /\
  (truthy (fv_springBootVersion fv) = None -> truthy (bt_platformVersion bt) = None ->
     platformVersion options = Some "3.5.3") /\
  (truthy (fv_packaging fv) = None -> truthy (bt_packaging bt) = None ->
     packaging options = Some "jar") /\
  (truthy (fv_dependencies fv) = None -> truthy (bt_dependencies bt) = None ->
     dependencies options = Some "web,lombok") /\
  fullySpecified options /\
  exists query,
    scaffoldUrl domain name None None = "https://start.spring.io/starter.zip?" +:+ query /\
    exists g a d p,
      parseQuery query =
        [ ("type", "gradle-project"); ("language", "java"); ("platformVersion", "3.5.3");
          ("packaging", "jar"); ("javaVersion", "21"); ("groupId", g); ("artifactId", a);
          ("name", a); ("description", d); ("packageName", p);
          ("dependencies", "web,lombok") ].
Proof.
  intros options. subst options. unfold scaffoldOptions, orElse. simpl.
  repeat split; try (intros -> ->; reflexivity); try (eexists; reflexivity).
  destruct (buildSpringInitializrUrl_query
              (scaffoldOptions domain name noFieldValues noBaseTemplateConfig))
    as (query & Hurl & Hparse).
  exists query. split; [exact Hurl|].
  rewrite Hparse. unfold searchParams, scaffoldOptions. simpl.
  eexists _, _, _, _. reflexivity.
Qed.

Lemma scaffold_resolves_defaults_witness :
  let options := scaffoldOptions "example.com" "orders" noFieldValues noBaseTemplateConfig in
  type options = Some "gradle-project" /\ javaVersion options = Some "21" /\
  platformVersion options = Some "3.5.3" /\ packaging options = Some "jar" /\
  dependencies options = Some "web,lombok".
Proof.
  intros options. subst options.
  destruct (scaffold_resolves_defaults "example.com" "orders" noFieldValues noBaseTemplateConfig)
    as (Ht & Hj & Hv & Hp & Hd & _).
  split; [apply Ht; reflexivity|].
  split; [apply Hj; reflexivity|].
  split; [apply Hv; reflexivity|].
  split; [apply Hp; reflexivity | apply Hd; reflexivity].
Defined.

(** C5: the URL is the fixed endpoint followed by a query whose
    parameters, read back, are the fields of the options one for one
    under fixed names and in a fixed order, with [language] always
    [java] and [name] equal to [artifactId]; and [scaffold] maps the
    build tool to one of the two project-layout tokens. *)
Theorem request_url_contract (options : Options)
    (domain name : string) (fv : FieldValues) (bt : BaseTemplateConfig) :
  (exists query,
     buildSpringInitializrUrl options = "https://start.spring.io/starter.zip?" +:+ query /\
     parseQuery query =
       [ ("type", default "gradle-project" (type options));
         ("language", "java");
         ("platformVersion", default "3.5.3" (platformVersion options));
         ("packaging", default "jar" (packaging options));
         ("javaVersion", default "21" (javaVersion options));
         ("groupId", groupId options);
         ("artifactId", artifactId options);
         ("name", artifactId options);
         ("description", default "Spring Boot project" (description options));
         ("packageName", packageName options);
         ("dependencies", default "web" (dependencies options)) ]) /\
  type (scaffoldOptions domain name fv bt) =
    Some (if String.eqb (orElse (fv_buildTool fv) (bt_build bt) "gradle") "maven"
          then "maven-project" else "gradle-project").
Proof.
  split; [apply buildSpringInitializrUrl_query | reflexivity].
Qed.

Lemma searchParams_inj o1 o2 :
  fullySpecified o1 -> fullySpecified o2 ->
  searchParams o1 = searchParams o2 -> o1 = o2.
Proof.
  destruct o1 as [g1 a1 p1 t1 j1 v1 k1 d1 s1], o2 as [g2 a2 p2 t2 j2 v2 k2 d2 s2].
  unfold fullySpecified, searchParams. simpl.
  intros ([? ->] & [? ->] & [? ->] & [? ->] & [? ->] & [? ->])
         ([? ->] & [? ->] & [? ->] & [? ->] & [? ->] & [? ->]) H.
  simpl in H. injection H as -> -> -> -> -> -> _ -> -> ->. reflexivity.
Qed.

(** C9: on options whose every field is given, the builder yields the
    same URL exactly for the same options: equal inputs give the same
    string, and options that differ in any field give different URLs. *)
Theorem request_builder_injective (o1 o2 : Options) :
  fullySpecified o1 -> fullySpecified o2 ->
  (buildSpringInitializrUrl o1 = buildSpringInitializrUrl o2 <-> o1 = o2).
Proof.
  intros H1 H2. split; [|intros ->; reflexivity].
  unfold buildSpringInitializrUrl. intros H.
  apply append_inj_l, toString_inj in H. apply searchParams_inj; assumption.
Qed.

Definition sampleOptions (deps : string) : Options :=
  {| groupId := "com.example"; artifactId := "orders-api";
     packageName := "com.example.orders"; type := Some "gradle-project";
     javaVersion := Some "21"; platformVersion := Some "3.5.3";
     packaging := Some "jar"; dependencies := Some deps;
     description := Some "Spring Boot project for orders" |}.

Lemma sampleOptions_fullySpecified deps : fullySpecified (sampleOptions deps).
Proof. unfold fullySpecified, sampleOptions. simpl. repeat split; eexists; reflexivity. Defined.

Lemma request_builder_injective_witness :
  buildSpringInitializrUrl (sampleOptions "web,lombok")
    <> buildSpringInitializrUrl (sampleOptions "web&lombok=1").
Proof.
  intros H.
  apply (request_builder_injective (sampleOptions "web,lombok") (sampleOptions "web&lombok=1")
           (sampleOptions_fullySpecified _) (sampleOptions_fullySpecified _)) in H.
  discriminate H.
Defined.

(** ** The fetch *)

Import Fs Fetcher.

(** The success range the specification speaks of. *)
Definition is2xx (statusCode : N) : bool :=
  ((200 <=? statusCode) && (statusCode <? 300))%N.

(** C1, as written, fails on the code: a [204] response is a 2xx
    success, and the fetch rejects it with the status error. *)
Lemma fetch_rejects_204 :
  is2xx 204 = true /\
  settlement (downloadSpringBootZip "https://start.spring.io/starter.zip?type=gradle-project"
                (js "/tmp/genesis3-spring-a1b2c3/starter.zip")
                (Responds 204 Finished) ∅)
  = Rejected (StatusError 204).
Proof. split; reflexivity. Qed.

(** C1 (amended): the fetch passes the URL to [https.get] once; on a
    response it rejects with the status error carrying the status code
    exactly when the status is not [200]; on success, a [200] response
    whose transfer finishes, it resolves with the destination path and
    the disk differs from the one before by the one file at that path;
    and it resolves in no other case. *)
Theorem fetch_status_contract
    (url : string) (outputPath : list N) (exchange : Exchange) (fs : FileSystem) :
  let r := downloadSpringBootZip url outputPath exchange fs in
  requests r = [url] /\
  (forall statusCode transfer,
      exchange = Responds statusCode transfer ->
      (settlement r = Rejected (StatusError statusCode) <-> statusCode <> 200%N)) /\
  (forall statusCode,
      settlement r = Rejected (StatusError statusCode) ->
      (exists transfer, exchange = Responds statusCode transfer) /\ disk r = fs) /\
  (exchange = Responds 200 Finished ->
      settlement r = Fulfilled outputPath /\
      disk r = <[outputPath := File]> fs /\
      disk r !! outputPath = Some File /\
      (forall p, p <> outputPath -> disk r !! p = fs !! p)) /\
  (forall value,
      settlement r = Fulfilled value ->
      value = outputPath /\ exchange = Responds 200 Finished /\
      disk r = <[outputPath := File]> fs).
Proof.
  intros r. subst r. unfold downloadSpringBootZip, unlinkSync.
  split; [|split; [|split; [|split]]].
  - destruct exchange as [m|code [|m|m|[m|]]]; simpl; try reflexivity;
      destruct (code =? 200)%N; simpl; try reflexivity.
    + destruct (fs !! outputPath) as [[|]|]; reflexivity.
    + rewrite lookup_insert_eq. reflexivity.
  - intros code transfer ->. destruct (code =? 200)%N eqn:E; simpl.
    + apply N.eqb_eq in E. subst code. split; [|intros H; contradiction].
      destruct transfer as [|m|m|[m|]]; simpl; try discriminate.
      * destruct (fs !! outputPath) as [[|]|]; discriminate.
      * rewrite lookup_insert_eq. discriminate.
    + apply N.eqb_neq in E. split; [intros _; exact E | reflexivity].
  - intros code. destruct exchange as [m|code' transfer]; simpl; [discriminate|].
    destruct (code' =? 200)%N eqn:E; simpl.
    + destruct transfer as [|m|m|[m|]]; simpl; try discriminate.
      * destruct (fs !! outputPath) as [[|]|]; discriminate.
      * rewrite lookup_insert_eq. discriminate.
    + intros H. injection H as ->. eauto.
  - intros ->. cbn [settlement disk N.eqb Pos.eqb negb].
    split; [reflexivity|]. split; [reflexivity|].
    split; [apply lookup_insert_eq|].
    intros p Hne. apply lookup_insert_ne. congruence.
  - intros value. destruct exchange as [m|code transfer]; simpl; [discriminate|].
    destruct (code =? 200)%N eqn:E; simpl; [|discriminate].
    apply N.eqb_eq in E. subst code.
    destruct transfer as [|m|m|[m|]]; simpl; try discriminate.
    + intros H. injection H as <-. auto.
    + destruct (fs !! outputPath) as [[|]|]; discriminate.
    + rewrite lookup_insert_eq. discriminate.
Qed.

Lemma fetch_status_contract_witness :
  settlement (downloadSpringBootZip "https://start.spring.io/starter.zip?type=gradle-project"
                (js "/tmp/genesis3-spring-a1b2c3/starter.zip")
                (Responds 404 Finished) ∅)
  = Rejected (StatusError 404) /\
  settlement (downloadSpringBootZip "https://start.spring.io/starter.zip?type=gradle-project"
                (js "/tmp/genesis3-spring-a1b2c3/starter.zip")
                (Responds 200 Finished) ∅)
  = Fulfilled (js "/tmp/genesis3-spring-a1b2c3/starter.zip") /\
  disk (downloadSpringBootZip "https://start.spring.io/starter.zip?type=gradle-project"
          (js "/tmp/genesis3-spring-a1b2c3/starter.zip")
          (Responds 200 Finished) ∅)
  = {[ js "/tmp/genesis3-spring-a1b2c3/starter.zip" := File ]}.
Proof.
  destruct (fetch_status_contract "https://start.spring.io/starter.zip?type=gradle-project"
              (js "/tmp/genesis3-spring-a1b2c3/starter.zip") (Responds 404 Finished) ∅)
    as (_ & Hstatus & _).
  destruct (fetch_status_contract "https://start.spring.io/starter.zip?type=gradle-project"
              (js "/tmp/genesis3-spring-a1b2c3/starter.zip") (Responds 200 Finished) ∅)
    as (_ & _ & _ & Hsuccess & _).
  destruct (Hsuccess eq_refl) as (Hvalue & Hdisk & _).
  split; [apply (Hstatus 404 Finished eq_refl); discriminate|].
  split; [exact Hvalue | exact Hdisk].
Defined.

(** C6 fails on the code at two of the failures it names.  When the
    destination cannot be opened (permission denied, no space for a new
    file), the listener's [unlinkSync] throws on the missing file and
    [reject] is never called.  When the connection is lost during the
    transfer, the partial file stays on disk: the promise stays pending,
    or, should the request emit 'error' as well, is rejected by the
    listener that does not unlink. *)
Lemma fetch_stream_failures_not_cleaned_up :
  let url := "https://start.spring.io/starter.zip?type=gradle-project" in
  let zipPath := js "/tmp/genesis3-spring-a1b2c3/starter.zip" in
  let fs : FileSystem := {[ js "/tmp/genesis3-spring-a1b2c3" := Directory ]} in
  settlement (downloadSpringBootZip url zipPath (Responds 200 (OpenFails "EACCES")) fs)
    = Pending (Some (SystemError "ENOENT: no such file or directory, unlink")) /\
  settlement (downloadSpringBootZip url zipPath (Responds 200 (ResponseAborted None)) fs)
    = Pending None /\
  disk (downloadSpringBootZip url zipPath (Responds 200 (ResponseAborted None)) fs) !! zipPath
    = Some File /\
  settlement (downloadSpringBootZip url zipPath
                (Responds 200 (ResponseAborted (Some "socket hang up"))) fs)
    = Rejected (DownloadError "socket hang up") /\
  disk (downloadSpringBootZip url zipPath
          (Responds 200 (ResponseAborted (Some "socket hang up"))) fs) !! zipPath
    = Some File.
Proof. repeat split; vm_compute; reflexivity. Qed.

(** Where the listener does what C6 asks: an error of the write stream
    after the file was opened removes the file and rejects with that
    error. *)
Lemma fetch_write_failure_cleans_up
    (url : string) (outputPath : list N) (message : string) (fs : FileSystem) :
  let r := downloadSpringBootZip url outputPath (Responds 200 (WriteFails message)) fs in
  settlement r = Rejected (SystemError message) /\ disk r !! outputPath = None.
Proof.
  simpl. unfold unlinkSync. rewrite lookup_insert_eq. simpl.
  split; [reflexivity | apply lookup_delete_eq].
Qed.

(** ** The wrapper *)

Import Scaffold.

Lemma cleanup_settlement {A} env tempDir (r : Run A) :
  settlement (cleanup env tempDir r) = settlement r.
Proof. unfold cleanup. destruct (rm env); reflexivity. Qed.

(** C2: in every run of [scaffold] that created its staging directory
    and whose pipeline ends, by a return or by an error of any step, the
    promise settles with the outcome of the pipeline alone, whatever
    [rmSync] did; when [rmSync] succeeds nothing is left at or below the
    staging directory, and when it throws the console has the clean-up
    warning. *)
Theorem scaffold_releases_staging
    (moduleConfig : ModuleConfig) (context : Context) (env : Env)
    (fs : FileSystem) (suffix : list N) :
  mkdtemp env = inr suffix ->
  let tempDir := stagingDir env suffix in
  let body := pipeline moduleConfig context env tempDir (<[tempDir := Directory]> fs) in
  let r := scaffold moduleConfig context env fs in
  settled (settlement body) = true ->
  settlement r = settlement body /\
  (rm env = RmDone ->
     forall p, isUnder tempDir p = true -> disk r !! p = None) /\
  (forall message removed,
     rm env = RmThrows message removed ->
     In (WarnCleanup tempDir message) (console r)).
Proof.
  intros Htmp tempDir body r Hs. subst r. unfold scaffold. rewrite Htmp.
  fold tempDir. fold body. cbn [settlement disk console]. rewrite Hs.
  split; [apply cleanup_settlement|]. split.
  - intros Hrm p Hp. unfold cleanup. rewrite Hrm. cbn [disk].
    rewrite rmTree_lookup, Hp. reflexivity.
  - intros message removed Hrm. unfold cleanup. rewrite Hrm. cbn [console].
    right. apply in_or_app. right. left. reflexivity.
Qed.

(** The pipeline ends as soon as the download settles: no later step
    can leave it suspended. *)
Lemma pipeline_settles
    (moduleConfig : ModuleConfig) (context : Context) (env : Env)
    (tempDir : list N) (fs : FileSystem) :
  settled (settlement (downloadSpringBootZip (urlOf moduleConfig context)
                         (join tempDir (js "starter.zip")) (exchange env) fs)) = true ->
  settled (settlement (pipeline moduleConfig context env tempDir fs)) = true.
Proof.
  unfold pipeline.
  destruct (settlement (downloadSpringBootZip _ _ _ _)) as [v|e|u]; simpl;
    [|reflexivity|discriminate].
  intros _. destruct (mkdir env); [reflexivity|].
  destruct (extractZipToMemory (archive env)) as [[e|files] log]; reflexivity.
Qed.

(** A run whose archive cannot be unpacked. *)
Definition brokenArchiveEnv : Env :=
  {| tmpdir := js "/tmp";
     mkdtemp := inr (js "a1b2c3");
     exchange := Responds 200 Finished;
     mkdir := None;
     archive := {| admZipInstalled := true; unpack := UnpackThrows "Invalid or unsupported zip format" |};
     rm := RmDone |}.

Definition sampleModuleConfig : ModuleConfig :=
  {| baseTemplateConfig := None; filesRemove := Some [js "HELP.md"] |}.

Definition sampleContext : Context :=
  {| domain := "example.com"; moduleName := "orders"; fieldValues := None |}.

Lemma scaffold_releases_staging_witness :
  let r := scaffold sampleModuleConfig sampleContext brokenArchiveEnv ∅ in
  settlement r = Rejected (SystemError "Invalid or unsupported zip format") /\
  disk r !! js "/tmp/genesis3-spring-a1b2c3" = None /\
  disk r !! js "/tmp/genesis3-spring-a1b2c3/starter.zip" = None /\
  disk r !! js "/tmp/genesis3-spring-a1b2c3/extracted" = None.
Proof.
  intros r. subst r.
  destruct (scaffold_releases_staging sampleModuleConfig sampleContext brokenArchiveEnv
              ∅ (js "a1b2c3") eq_refl eq_refl) as (Hsame & Hgone & _).
  split; [rewrite Hsame; vm_compute; reflexivity|].
  split; [apply (Hgone eq_refl); vm_compute; reflexivity|].
  split; apply (Hgone eq_refl); vm_compute; reflexivity.
Defined.

(** * Further properties of the code *)

Local Close Scope string_scope.

(** ** Classification (lines 118 and 123 of [readDirectoryRecursive]) *)

(** The third alternative of the executable pattern as a test on the
    name: it ends in [.sh] up to case, and no line terminator comes
    before that ending. *)
Definition is_shell_script_name (name : list N) : bool :=
  ends_with_ci (js ".sh") name
  && forallb (fun c => negb (isLineTerminator c)) (take (length name - 3)%nat name).

Lemma no_line_terminator_forallb s :
  no_line_terminator s <-> forallb (fun c => negb (isLineTerminator c)) s = true.
Proof.
  unfold no_line_terminator. rewrite forallb_forall, List.Forall_forall.
  split; intros H c Hc; specialize (H c Hc).
  - rewrite H. reflexivity.
  - apply negb_true_iff. exact H.
Qed.

Lemma is_shell_script_name_spec name :
  is_shell_script_name name = true <->
  exists pre t, name = pre ++ t /\ no_line_terminator pre /\ eq_ci t (js ".sh") = true.
Proof.
  unfold is_shell_script_name. rewrite andb_true_iff, ends_with_ci_spec. split.
  - intros [(pre & t & -> & Ht) Hlt]. exists pre, t. split; [reflexivity|]. split; [|exact Ht].
    apply no_line_terminator_forallb.
    pose proof (eq_ci_length _ _ Ht) as Hl. change (length (js ".sh")) with 3%nat in Hl.
    rewrite length_app, Hl in Hlt.
    replace (length pre + 3 - 3)%nat with (length pre) in Hlt by lia.
    rewrite take_app_length in Hlt. exact Hlt.
  - intros (pre & t & -> & Hpre & Ht). split; [eauto|].
    pose proof (eq_ci_length _ _ Ht) as Hl. change (length (js ".sh")) with 3%nat in Hl.
    rewrite length_app, Hl.
    replace (length pre + 3 - 3)%nat with (length pre) by lia.
    rewrite take_app_length. apply no_line_terminator_forallb. exact Hpre.
Qed.

(** X1: the executable pattern, decided on the name: a file is marked
    executable exactly when its name is [gradlew] or [gradlew.bat] up to
    ASCII case, or ends in [.sh] up to ASCII case with no line
    terminator before that ending. *)
Theorem shouldBeExecutable_decided (name : list N) :
  shouldBeExecutable name =
  eq_ci name (js "gradlew") || eq_ci name (js "gradlew.bat") || is_shell_script_name name.
Proof.
  apply eq_true_iff_eq. rewrite shouldBeExecutable_exact.
  rewrite !orb_true_iff, is_shell_script_name_spec. tauto.
Qed.

(** Folding the case of the input does not change what a pattern with
    the [i] flag matches. *)
Lemma canonicalize_idemp c : canonicalize (canonicalize c) = canonicalize c.
Proof.
  unfold canonicalize.
  destruct ((97 <=? c) && (c <=? 122)) eqn:E; [|rewrite E; reflexivity].
  apply andb_true_iff in E as [H1 H2]. apply N.leb_le in H1, H2.
  destruct ((97 <=? c - 32) && (c - 32 <=? 122)) eqn:E'; [|reflexivity].
  apply andb_true_iff in E' as [H3 _]. apply N.leb_le in H3. lia.
Qed.

Lemma isLineTerminator_canonicalize c :
  isLineTerminator (canonicalize c) = isLineTerminator c.
Proof.
  unfold canonicalize.
  destruct ((97 <=? c) && (c <=? 122)) eqn:E; [|reflexivity].
  apply andb_true_iff in E as [H1 H2]. apply N.leb_le in H1, H2.
  unfold isLineTerminator.
  repeat match goal with
         | |- context [?a =? ?b] =>
             let H := fresh in destruct (N.eqb_spec a b) as [H|H]; [exfalso; lia|]
         end.
  reflexivity.
Qed.

Lemma deriv_canonicalize c r : deriv true (canonicalize c) r = deriv true c r.
Proof.
  induction r; simpl; try reflexivity.
  - unfold unit_eqb. rewrite canonicalize_idemp. reflexivity.
  - rewrite isLineTerminator_canonicalize. reflexivity.
  - rewrite IHr1, IHr2. reflexivity.
  - rewrite IHr1, IHr2. reflexivity.
  - rewrite IHr. reflexivity.
Qed.

Lemma matches_canonicalize s : forall r,
  matches true r (map canonicalize s) = matches true r s.
Proof.
  induction s as [|c s IH]; intros r; simpl; [reflexivity|].
  rewrite deriv_canonicalize. apply IH.
Qed.

Lemma tails_map (f : N -> N) s : tails (map f s) = map (map f) (tails s).
Proof. induction s as [|c s IH]; simpl; [reflexivity | rewrite IH; reflexivity]. Qed.

Lemma test_canonicalize re s :
  ignoreCase re = true -> test re (map canonicalize s) = test re s.
Proof.
  intros Hi. unfold test. rewrite Hi. destruct (anchoredStart re).
  - apply matches_canonicalize.
  - rewrite tails_map. induction (tails s) as [|t ts IH]; simpl; [reflexivity|].
    rewrite matches_canonicalize, IH. reflexivity.
Qed.

(** X2: two names that differ only in the case of ASCII letters are
    classified alike, as binary or text and as executable or not. *)
Theorem classification_ignores_case (a b bytes : list N) :
  eq_ci a b = true ->
  Materializer.type (entryOf a bytes) = Materializer.type (entryOf b bytes) /\
  executable (entryOf a bytes) = executable (entryOf b bytes).
Proof.
  unfold eq_ci. rewrite bool_decide_eq_true. intros H.
  rewrite !entryOf_type, !entryOf_executable. unfold isBinary, shouldBeExecutable.
  rewrite <- (test_canonicalize binaryPattern a), <- (test_canonicalize binaryPattern b),
          <- (test_canonicalize executablePattern a), <- (test_canonicalize executablePattern b)
    by reflexivity.
  rewrite H. split; reflexivity.
Qed.

Lemma classification_ignores_case_witness :
  Materializer.type (entryOf (js "Wrapper.JAR") [80]) = Materializer.type (entryOf (js "wrapper.jar") [80]) /\
  executable (entryOf (js "Wrapper.JAR") [80]) = executable (entryOf (js "wrapper.jar") [80]).
Proof.
  apply (classification_ignores_case (js "Wrapper.JAR") (js "wrapper.jar") [80]).
  vm_compute. reflexivity.
Defined.

(** ** The walk ([readDirectoryRecursive], [extractZipToMemory]) *)














(** The names along a path, joined by the separator. *)
Fixpoint joinAll (parts : list (list N)) : list N :=
  match parts with
  | [] => []
  | [name] => name
  | name :: rest => name ++ 47 :: joinAll rest
  end.

Lemma joinAll_cons name parts :
  parts <> [] -> joinAll (name :: parts) = name ++ 47 :: joinAll parts.
Proof. destruct parts; [contradiction | reflexivity]. Qed.

(** The way to a file of the tree: the names of the directories the
    walk descends through, outermost first, then the file with its name
    and the outcome of reading it. *)
Inductive reaches : list Dirent -> list (list N) -> list N -> ReadResult -> Prop :=
| reach_file items n r :
    In (FileItem n r) items -> reaches items [] n r
| reach_dir items d sub dirs n r :
    In (DirItem d Listed sub) items ->
    reaches sub dirs n r ->
    reaches items (d :: dirs) n r.

Lemma file_at_components base items p n r :
  forallb wellFormed items = true ->
  file_at base items p n r ->
  exists dirs,
    reaches items dirs n r /\
    p = relativePath base (joinAll (dirs ++ [n])) /\
    Forall (fun name => validName name = true) (dirs ++ [n]).
Proof.
  intros Hwf H. revert Hwf.
  induction H as [base items name r Hin|base items name sub p n r Hin Hsub IH]; intros Hwf.
  - exists []. split; [apply reach_file; exact Hin|]. split; [reflexivity|].
    constructor; [|constructor].
    apply (proj1 (forallb_forall _ _) Hwf) in Hin. exact Hin.
  - pose proof Hin as Hin'.
    apply (proj1 (forallb_forall _ _) Hwf) in Hin. simpl in Hin.
    apply andb_true_iff in Hin as [Hin Hsubwf]. apply andb_true_iff in Hin as [Hname _].
    destruct (IH Hsubwf) as (dirs & Hreach & -> & Hvalid).
    exists (name :: dirs). split; [eapply reach_dir; eauto|].
    split; [|constructor; assumption].
    destruct (validName_spec name Hname) as [Hne _].
    change ((name :: dirs) ++ [n]) with (name :: (dirs ++ [n])).
    rewrite joinAll_cons by (destruct dirs; discriminate).
    destruct (relativePath_sub base name (joinAll (dirs ++ [n])) Hne) as [<- Hne'].
    destruct (relativePath base name); [contradiction | reflexivity].
Qed.

(** Conversely, the file at the end of a way through the tree lies at
    the names of the way joined by the separator. *)
Lemma reaches_file_at items dirs n r :
  reaches items dirs n r ->
  forallb wellFormed items = true ->
  forall base, file_at base items (relativePath base (joinAll (dirs ++ [n]))) n r.
Proof.
  induction 1 as [items n r Hin|items d sub dirs n r Hin _ IH]; intros Hwf base.
  - apply file_here. exact Hin.
  - pose proof Hin as Hin'.
    apply (proj1 (forallb_forall _ _) Hwf) in Hin. simpl in Hin.
    apply andb_true_iff in Hin as [Hin Hsubwf]. apply andb_true_iff in Hin as [Hname _].
    destruct (validName_spec d Hname) as [Hne _].
    change ((d :: dirs) ++ [n]) with (d :: (dirs ++ [n])).
    rewrite joinAll_cons by (destruct dirs; discriminate).
    eapply file_below; [exact Hin'|].
    specialize (IH Hsubwf (relativePath base d)).
    destruct (relativePath_sub base d (joinAll (dirs ++ [n])) Hne) as [Heq Hne'].
    rewrite <- Heq.
    destruct (relativePath base d); [contradiction | exact IH].
Qed.

(** X4: every key of the model returned for a directory tree leads to a
    file of that tree: the key is the names of the directories on the
    way down to the file, then the file's own name, joined by [/]; the
    entry stored under it is the one built from the file's own name and
    the bytes read from it; and the key does not begin with a
    separator.  Conversely every readable file of a tree that can be
    listed is under the key so formed, unless that key is
    [__proto__]. *)
Theorem model_keys_are_relative_paths
    (env : ArchiveEnv) (items : list Dirent)
    (files : Files) (log : list LogLine) :
  unpack env = Unpacked Listed items ->
  wellFormedTree items = true ->
  extractZipToMemory env = (inr files, log) ->
  (forall p e,
     own files !! p = Some e ->
     exists dirs n bytes,
       reaches items dirs n (ReadOk bytes) /\
       p = joinAll (dirs ++ [n]) /\
       Forall (fun name => validName name = true) (dirs ++ [n]) /\
       e = entryOf n bytes /\
       (exists c rest, p = c :: rest /\ c <> 47)) /\
  (forall dirs n bytes,
     reaches items dirs n (ReadOk bytes) ->
     joinAll (dirs ++ [n]) <> protoKey ->
     own files !! joinAll (dirs ++ [n]) = Some (entryOf n bytes)).
Proof.
  intros Hunpack Hwf Hrun.
  apply extractZipToMemory_returns in Hrun as (access & items' & log' & Hu & Hrun & _).
  rewrite Hunpack in Hu. injection Hu as <- <-. simpl in Hrun.
  pose proof (wellFormedTree_unique items Hwf []) as Huniq.
  apply walk_from_empty in Hrun as (_ & Ho & _ & Hr & _).
  apply andb_true_iff in Hwf as [_ Hall]. split.
  - intros p e Hp. destruct (Ho p e Hp) as (_ & n & bytes & Hat & ->).
    destruct (file_at_components _ _ _ _ _ Hall Hat) as (dirs & Hreach & Hpath & Hvalid).
    simpl in Hpath. exists dirs, n, bytes. repeat split; try assumption.
    assert (Hfirst : exists x xs, dirs ++ [n] = x :: xs) by (destruct dirs; simpl; eauto).
    destruct Hfirst as (x & xs & Heq). rewrite Heq in Hvalid, Hpath.
    apply Forall_cons in Hvalid as [Hx _]. apply validName_spec in Hx as [Hne Hsep].
    destruct x as [|c x']; [contradiction|]. apply Forall_cons in Hsep as [Hc _].
    exists c. subst p. destruct xs; simpl; eauto.
  - intros dirs n bytes Hreach Hne.
    pose proof (reaches_file_at _ _ _ _ Hreach Hall []) as Hat. simpl in Hat.
    destruct (Hr _ _ _ Hat Hne) as [e He].
    destruct (Ho _ e He) as (_ & n' & bytes' & Hat' & ->).
    destruct (Huniq _ n (ReadOk bytes) n' (ReadOk bytes') Hat Hat') as [-> Heq].
    injection Heq as ->. exact He.
Qed.

Lemma model_keys_are_relative_paths_witness :
  (exists dirs n bytes,
    reaches sampleTree dirs n (ReadOk bytes) /\
    js "gradle/wrapper.jar" = joinAll (dirs ++ [n]) /\
    Forall (fun name => validName name = true) (dirs ++ [n]) /\
    entryOf (js "wrapper.jar") [80; 75] = entryOf n bytes /\
    (exists c rest, js "gradle/wrapper.jar" = c :: rest /\ c <> 47)) /\
  own (modelOf (extractZipToMemory sampleArchive)) !! js "gradlew"
  = Some (entryOf (js "gradlew") [35; 33]).
Proof.
  destruct (model_keys_are_relative_paths sampleArchive sampleTree
              (modelOf (extractZipToMemory sampleArchive))
              (snd (extractZipToMemory sampleArchive)) eq_refl eq_refl)
    as [Hkeys Hfiles]; [vm_compute; reflexivity|].
  split.
  - apply Hkeys. vm_compute. reflexivity.
  - apply (Hfiles [] (js "gradlew") [35; 33]).
    + apply reach_file. left. reflexivity.
    + vm_compute. discriminate.
Defined.

(** The model of a directory tree, key by key, and its prototype. *)
Lemma walk_model items :
  forallb listable items = true ->
  wellFormedTree items = true ->
  exists files log,
    readItems [] items (emptyFiles, []) = (None, (files, log)) /\
    (forall p e,
      own files !! p = Some e <->
      p <> protoKey /\
      exists n bytes, file_at [] items p n (ReadOk bytes) /\ e = entryOf n bytes) /\
    (forall e,
      proto files = Some e <->
      exists n bytes, file_at [] items protoKey n (ReadOk bytes) /\ e = entryOf n bytes) /\
    (forall p n message,
      file_at [] items p n (ReadThrows message) ->
      own files !! p = None /\ (p = protoKey -> proto files = None) /\
      In (WarnCouldNotRead p message) log).
Proof.
  intros Hlist Hwf.
  pose proof (wellFormedTree_unique items Hwf []) as Huniq.
  pose proof (readItems_completes items [] (emptyFiles, []) Hlist) as Hdone.
  destruct (readItems [] items (emptyFiles, [])) as [o [files log]] eqn:Hrun.
  simpl in Hdone. subst o. exists files, log. split; [reflexivity|].
  apply walk_from_empty in Hrun as (Hown & Ho & Hp & Hr & Hrp & Hw & _).
  split; [|split].
  - intros p e. split; [apply Ho|].
    intros (Hne & n & bytes & Hat & ->). destruct (Hr p n bytes Hat Hne) as [e He].
    destruct (Ho p e He) as (_ & n' & bytes' & Hat' & ->).
    destruct (Huniq p n (ReadOk bytes) n' (ReadOk bytes') Hat Hat') as [-> Heq].
    injection Heq as ->. exact He.
  - intros e. split; [apply Hp|].
    intros (n & bytes & Hat & ->). destruct (Hrp n bytes Hat) as [e He].
    destruct (Hp e He) as (n' & bytes' & Hat' & ->).
    destruct (Huniq _ n (ReadOk bytes) n' (ReadOk bytes') Hat Hat') as [-> Heq].
    injection Heq as ->. exact He.
  - intros p n message Hat. split; [|split].
    + destruct (own files !! p) as [e|] eqn:He; [|reflexivity].
      destruct (Ho p e He) as (_ & n' & bytes' & Hat' & _).
      destruct (Huniq p n (ReadThrows message) n' (ReadOk bytes') Hat Hat') as [_ Heq].
      discriminate.
    + intros ->. destruct (proto files) as [e|] eqn:He; [|reflexivity].
      destruct (Hp e eq_refl) as (n' & bytes' & Hat' & _).
      destruct (Huniq _ n (ReadThrows message) n' (ReadOk bytes') Hat Hat') as [_ Heq].
      discriminate.
    + exact (Hw p n message Hat).
Qed.

(** X19: for every unpacked directory tree whose directories can be
    listed, the materializer returns an object whatever the outcome of
    the individual reads.  A file that was read is an own property
    under its relative path, with the entry built from its name and
    bytes, unless that path is [__proto__]; a file whose read failed
    is absent and has its warning on the console; the object has no
    other own property, and the console counts the own properties.  A
    file read at the path [__proto__] is no own property: its entry is
    the prototype of the object, which is [Object.prototype]
    otherwise. *)
Theorem readable_files_are_materialized (env : ArchiveEnv) (items : list Dirent) :
  admZipInstalled env = true ->
  unpack env = Unpacked Listed items ->
  forallb listable items = true ->
  wellFormedTree items = true ->
  exists files log,
    extractZipToMemory env = (inr files, log) /\
    (forall p n bytes,
        file_at [] items p n (ReadOk bytes) -> p <> protoKey ->
        own files !! p = Some (entryOf n bytes)) /\
    (forall p n message,
        file_at [] items p n (ReadThrows message) ->
        own files !! p = None /\ In (WarnCouldNotRead p message) log) /\
    (forall p e,
        own files !! p = Some e -> exists n bytes, file_at [] items p n (ReadOk bytes)) /\
    In (LogExtracted (size (own files))) log /\
    own files !! protoKey = None /\
    (forall e,
        proto files = Some e <->
        exists n bytes, file_at [] items protoKey n (ReadOk bytes) /\ e = entryOf n bytes).
Proof.
  intros Hzip Hunpack Hlist Hwf.
  destruct (walk_model items Hlist Hwf) as (files & log' & Hrun & Ho & Hp & Hf).
  exists files, (LogExtracting :: log' ++ [LogExtracted (size (own files))]).
  split; [|split; [|split; [|split; [|split; [|split]]]]].
  - unfold extractZipToMemory. rewrite Hzip, Hunpack. simpl. rewrite Hrun. reflexivity.
  - intros p n bytes H Hne. apply Ho. eauto.
  - intros p n message H. destruct (Hf p n message H) as (Hnone & _ & Hw).
    split; [exact Hnone|]. right. apply in_or_app. left. exact Hw.
  - intros p e H. apply Ho in H as (_ & n & bytes & H & _). eauto.
  - right. apply in_or_app. right. left. reflexivity.
  - destruct (own files !! protoKey) as [e|] eqn:E; [|reflexivity].
    apply Ho in E as [E _]. contradiction.
  - exact Hp.
Qed.

Lemma readable_files_are_materialized_witness :
  exists files log,
    extractZipToMemory sampleArchive = (inr files, log) /\
    own files !! js "gradle/wrapper.jar" = Some (entryOf (js "wrapper.jar") [80; 75]) /\
    own files !! js "gradle/locked.txt" = None /\
    In (WarnCouldNotRead (js "gradle/locked.txt") "EACCES") log.
Proof.
  destruct (readable_files_are_materialized sampleArchive sampleTree
              eq_refl eq_refl eq_refl eq_refl)
    as (files & log & Hrun & Hread & Hfail & _).
  exists files, log. split; [exact Hrun|].
  assert (Hjar : file_at [] sampleTree (js "gradle/wrapper.jar") (js "wrapper.jar") (ReadOk [80; 75])).
  { eapply file_below; [right; left; reflexivity|].
    apply (file_here (js "gradle") _ (js "wrapper.jar")). left. reflexivity. }
  assert (Htxt : file_at [] sampleTree (js "gradle/locked.txt") (js "locked.txt") (ReadThrows "EACCES")).
  { eapply file_below; [right; left; reflexivity|].
    apply (file_here (js "gradle") _ (js "locked.txt")). right. left. reflexivity. }
  split; [apply (Hread _ _ _ Hjar); vm_compute; discriminate|]. exact (Hfail _ _ _ Htxt).
Defined.

Lemma file_at_Permutation base items1 items2 p n r :
  items1 ≡ₚ items2 -> file_at base items1 p n r -> file_at base items2 p n r.
Proof.
  intros Hperm H.
  inversion H as [b i nm rr Hin|b i nm sub pp nn rr Hin Hsub]; subst.
  - apply file_here. apply (Permutation_in _ Hperm). exact Hin.
  - eapply file_below; [|exact Hsub]. apply (Permutation_in _ Hperm). exact Hin.
Qed.

Lemma forallb_Permutation {A} (f : A -> bool) (l1 l2 : list A) :
  l1 ≡ₚ l2 -> forallb f l1 = true -> forallb f l2 = true.
Proof.
  intros Hperm. rewrite !forallb_forall. intros H x Hx. apply H.
  apply (Permutation_in _ (Permutation_sym Hperm)). exact Hx.
Qed.

Lemma wellFormedTree_Permutation items1 items2 :
  items1 ≡ₚ items2 -> wellFormedTree items1 = true -> wellFormedTree items2 = true.
Proof.
  intros Hperm Hwf. apply andb_true_iff in Hwf as [Hnd Hall].
  apply andb_true_iff. split.
  - apply bool_decide_eq_true. apply bool_decide_eq_true in Hnd.
    rewrite <- Hperm. exact Hnd.
  - eapply forallb_Permutation; eauto.
Qed.

(** X5: the order in which [readdirSync] lists the items of the root
    directory does not matter: two listings of the same directory tree
    that differ only in that order give the same model. *)
Theorem model_ignores_listing_order (items1 items2 : list Dirent) :
  items1 ≡ₚ items2 ->
  forallb listable items1 = true ->
  wellFormedTree items1 = true ->
  modelOf (extractZipToMemory {| admZipInstalled := true; unpack := Unpacked Listed items1 |})
  = modelOf (extractZipToMemory {| admZipInstalled := true; unpack := Unpacked Listed items2 |}).
Proof.
  intros Hperm Hlist Hwf.
  destruct (walk_model items1 Hlist Hwf) as (f1 & l1 & Hrun1 & H1 & P1 & _).
  destruct (walk_model items2 (forallb_Permutation _ _ _ Hperm Hlist)
              (wellFormedTree_Permutation _ _ Hperm Hwf)) as (f2 & l2 & Hrun2 & H2 & P2 & _).
  unfold modelOf, extractZipToMemory. simpl. rewrite Hrun1, Hrun2. simpl.
  apply Files_eq.
  - apply map_eq. intros p.
    destruct (own f1 !! p) as [e|] eqn:E1.
    + apply H1 in E1 as (Hne & n & bytes & Hat & ->). symmetry. apply H2.
      split; [exact Hne|].
      exists n, bytes. split; [eapply file_at_Permutation; eauto | reflexivity].
    + destruct (own f2 !! p) as [e|] eqn:E2; [|reflexivity].
      apply H2 in E2 as (Hne & n & bytes & Hat & ->). rewrite <- E1. apply H1.
      split; [exact Hne|]. exists n, bytes. split; [|reflexivity].
      eapply file_at_Permutation; [symmetry; exact Hperm | exact Hat].
  - destruct (proto f1) as [e|] eqn:E1.
    + destruct (proj1 (P1 e) eq_refl) as (n & bytes & Hat & ->). symmetry. apply P2.
      exists n, bytes. split; [eapply file_at_Permutation; eauto | reflexivity].
    + destruct (proto f2) as [e|] eqn:E2; [|reflexivity].
      destruct (proj1 (P2 e) eq_refl) as (n & bytes & Hat & ->). apply P1.
      exists n, bytes. split; [|reflexivity].
      eapply file_at_Permutation; [symmetry; exact Hperm | exact Hat].
Qed.

Lemma model_ignores_listing_order_witness :
  modelOf (extractZipToMemory sampleArchive)
  = modelOf (extractZipToMemory
               {| admZipInstalled := true;
                  unpack := Unpacked Listed
                    [ DirItem (js "gradle") Listed
                        [ FileItem (js "wrapper.jar") (ReadOk [80; 75]);
                          FileItem (js "locked.txt") (ReadThrows "EACCES") ];
                      FileItem (js "gradlew") (ReadOk [35; 33]) ] |}).
Proof.
  apply (model_ignores_listing_order sampleTree).
  - apply perm_swap.
  - reflexivity.
  - reflexivity.
Defined.

(** ** [removeFiles] *)

Lemma removeFiles_lookup_any files (filesToRemove : option (list (list N))) p :
  own (fst (removeFiles files filesToRemove)) !! p =
  if decide (p ∈ default [] filesToRemove) then None else own files !! p.
Proof.
  destruct filesToRemove as [l|]; [apply removeFiles_lookup|].
  simpl. destruct (decide (p ∈ [])) as [H|_]; [inversion H | reflexivity].
Qed.

(** X6: [removeFiles] only deletes: the keys of the result are the keys
    of the model less the requested paths, and every entry that stays
    is the entry that was there.  A missing list removes nothing.  The
    prototype of the object is never touched. *)
Theorem removeFiles_only_deletes
    (files : Files) (filesToRemove : option (list (list N))) :
  dom (own (fst (removeFiles files filesToRemove)))
    = dom (own files) ∖ list_to_set (default [] filesToRemove) /\
  own (fst (removeFiles files filesToRemove)) ⊆ own files /\
  proto (fst (removeFiles files filesToRemove)) = proto files.
Proof.
  split; [|split].
  - apply set_eq. intros p.
    rewrite elem_of_difference, !elem_of_dom, elem_of_list_to_set, removeFiles_lookup_any.
    destruct (decide (p ∈ default [] filesToRemove)) as [Hin|Hnin].
    + split; [intros [x Hx]; discriminate | intros [_ H]; contradiction].
    + tauto.
  - apply map_subseteq_spec. intros p e. rewrite removeFiles_lookup_any.
    destruct (decide (p ∈ default [] filesToRemove)); [discriminate | auto].
  - apply removeFiles_proto.
Qed.

(** X7: removals compose and commute: filtering by one list and then by
    another gives the model of filtering by the two lists joined, in
    either order. *)
Theorem removeFiles_composes
    (files : Files) (l1 l2 : list (list N)) :
  fst (removeFiles (fst (removeFiles files (Some l1))) (Some l2))
    = fst (removeFiles files (Some (l1 ++ l2))) /\
  fst (removeFiles files (Some (l1 ++ l2))) = fst (removeFiles files (Some (l2 ++ l1))).
Proof.
  split; (apply Files_eq; [|rewrite !removeFiles_proto; reflexivity]);
    apply map_eq; intros p; rewrite !removeFiles_lookup.
  - destruct (decide (p ∈ l1 ++ l2)) as [H|H].
    + apply elem_of_app in H.
      destruct (decide (p ∈ l2)); [reflexivity|].
      destruct (decide (p ∈ l1)); [reflexivity | tauto].
    + rewrite elem_of_app in H.
      destruct (decide (p ∈ l2)); [tauto|].
      destruct (decide (p ∈ l1)); [tauto | reflexivity].
  - destruct (decide (p ∈ l1 ++ l2)) as [H|H], (decide (p ∈ l2 ++ l1)) as [H'|H'];
      try reflexivity; exfalso; rewrite elem_of_app in H, H'; tauto.
Qed.

(** The lines [removeFiles] writes with the removed-file message. *)
Definition removedLines (log : list LogLine) : nat :=
  length (List.filter (fun l => match l with LogRemoved _ => true | _ => false end) log).

Lemma removedLines_app a b : removedLines (a ++ b) = (removedLines a + removedLines b)%nat.
Proof. unfold removedLines. rewrite List.filter_app, length_app. reflexivity. Qed.

Lemma removeLoop_length l : forall st,
  length (snd (fold_left removeOne l st)) = (length (snd st) + length l)%nat.
Proof.
  induction l as [|f l IH]; intros st; simpl; [lia|].
  rewrite IH. unfold removeOne. destruct (truthyAt (fst st) f); simpl;
    rewrite length_app; simpl; lia.
Qed.

(** Every removed key has its removed-file line. *)
Lemma removeLoop_count_le l : forall st,
  (size (own (fst st)) + removedLines (snd st)
   <= size (own (fst (fold_left removeOne l st))) + removedLines (snd (fold_left removeOne l st)))%nat.
Proof.
  induction l as [|f l IH]; intros [m log]; simpl; [lia|].
  etransitivity; [|apply IH].
  unfold removeOne. simpl. destruct (truthyAt m f) eqn:E; simpl.
  - rewrite removedLines_app. unfold removedLines at 3. simpl.
    rewrite map_size_delete. destruct (own m !! f); simpl; lia.
  - rewrite removedLines_app. unfold removedLines at 3. simpl. lia.
Qed.

(** When the prototype chain answers for no requested path, every
    removed-file line is a removed key. *)
Lemma removeLoop_count l : forall st,
  (forall f, In f l -> inheritedTruthy (fst st) f = false) ->
  (size (own (fst (fold_left removeOne l st))) + removedLines (snd (fold_left removeOne l st))
   = size (own (fst st)) + removedLines (snd st))%nat.
Proof.
  induction l as [|f l IH]; intros [m log] Hinh; [simpl; lia|].
  cbn [fst snd] in Hinh. cbn [fold_left]. rewrite IH.
  - unfold removeOne, truthyAt. cbn [fst snd]. rewrite (Hinh f) by (left; reflexivity).
    rewrite orb_false_r.
    destruct (own m !! f) as [e|] eqn:E.
    + rewrite bool_decide_eq_true_2 by eauto. cbn [fst snd deleteKey own].
      rewrite removedLines_app, map_size_delete, E.
      assert (size (own m) <> 0)%nat.
      { intros H0. apply map_size_empty_inv in H0. rewrite H0, lookup_empty in E. discriminate. }
      unfold removedLines at 2. simpl. lia.
    + rewrite bool_decide_eq_false_2 by (intros [? ?]; discriminate). cbn [fst snd].
      rewrite removedLines_app. unfold removedLines at 2. simpl. lia.
  - intros g Hg. rewrite <- (Hinh g) by (right; exact Hg).
    apply inheritedTruthy_proto. apply removeOne_proto.
Qed.

(** X8: the console against the effect: [removeFiles] writes nothing
    for an empty list and otherwise a heading and one line per
    requested path; every key the model lost has its removed-file
    line; and when no requested path names a property the object
    inherits, the number of removed-file lines is the number of keys
    the model lost (a path requested twice is removed once and warned
    about once). *)
Theorem removeFiles_console_counts (files : Files) (l : list (list N)) :
  let r := removeFiles files (Some l) in
  length (snd r) = (if decide (l = []) then 0 else S (length l))%nat /\
  (size (own files) <= size (own (fst r)) + removedLines (snd r))%nat /\
  ((forall f, In f l -> inheritedTruthy files f = false) ->
   (size (own (fst r)) + removedLines (snd r))%nat = size (own files)).
Proof.
  intros r. subst r.
  destruct l as [|f l];
    [simpl; split; [reflexivity | split; [|intros _]; unfold removedLines; simpl; lia]|].
  unfold removeFiles.
  destruct (decide (f :: l = [])) as [H|_]; [discriminate|].
  split; [rewrite removeLoop_length; reflexivity|]. split.
  - pose proof (removeLoop_count_le (f :: l) (files, [LogRemoving])) as H.
    unfold removedLines at 1 in H. simpl in H. simpl. lia.
  - intros Hinh. rewrite removeLoop_count by exact Hinh.
    unfold removedLines. simpl. lia.
Qed.

Lemma removeFiles_console_counts_witness :
  let r := removeFiles sampleModel (Some [js "HELP.md"; js "HELP.md"]) in
  length (snd r) = 3%nat /\
  (size (own (fst r)) + removedLines (snd r))%nat = 2%nat.
Proof.
  destruct (removeFiles_console_counts sampleModel [js "HELP.md"; js "HELP.md"])
    as (Hlen & _ & Hcount).
  split; [exact Hlen|]. apply Hcount.
  intros f [<-|[<-|[]]]; vm_compute; reflexivity.
Defined.

(** X20: filtering twice with the same list gives the object of
    filtering once; every requested path is absent afterwards; a
    requested path that was present is reported as removed; a requested
    path that was absent, and that names no property the object
    inherits, gets a warning, is not reported as removed and stays
    absent; a requested path that names an inherited property is
    reported as removed and never warned about, present or not; and the
    other keys are unchanged. *)
Theorem removeFiles_idempotent_on_own_keys (files : Files) (l : list (list N)) :
  let once := removeFiles files (Some l) in
  fst (removeFiles (fst once) (Some l)) = fst once /\
  (forall f, In f l -> own (fst once) !! f = None) /\
  (forall f, In f l -> is_Some (own files !! f) -> In (LogRemoved f) (snd once)) /\
  (forall f, In f l -> own files !! f = None -> inheritedTruthy files f = false ->
     In (WarnNotFound f) (snd once) /\ ~ In (LogRemoved f) (snd once) /\
     own (fst once) !! f = own files !! f) /\
  (forall f, In f l -> inheritedTruthy files f = true ->
     In (LogRemoved f) (snd once) /\ ~ In (WarnNotFound f) (snd once)) /\
  (forall p, ~ In p l -> own (fst once) !! p = own files !! p).
Proof.
  intros once. subst once. split; [|split; [|split; [|split; [|split]]]].
  - apply Files_eq; [|rewrite !removeFiles_proto; reflexivity].
    apply map_eq. intros p. rewrite !removeFiles_lookup.
    destruct (decide (p ∈ l)); reflexivity.
  - intros f Hin. rewrite removeFiles_lookup.
    destruct (decide (f ∈ l)) as [_|Hn]; [reflexivity|].
    exfalso. apply Hn. apply list_elem_of_In. exact Hin.
  - intros f Hin [e He]. pose proof (removeFiles_log_line files l f Hin) as H.
    rewrite (truthyAt_own files f e He) in H. exact H.
  - intros f Hin Hnone Hinh. split; [|split].
    + pose proof (removeFiles_log_line files l f Hin) as H.
      rewrite (truthyAt_absent files f Hnone), Hinh in H. exact H.
    + intros H. apply removeFiles_log_removed in H as [[e He]|H]; congruence.
    + rewrite removeFiles_lookup, Hnone. destruct (decide (f ∈ l)); reflexivity.
  - intros f Hin Hinh. split.
    + pose proof (removeFiles_log_line files l f Hin) as H.
      unfold truthyAt in H. rewrite Hinh, orb_true_r in H. exact H.
    + intros H. apply removeFiles_log_warned in H. congruence.
  - intros p Hnin. rewrite removeFiles_lookup.
    destruct (decide (p ∈ l)) as [H|_]; [|reflexivity].
    exfalso. apply Hnin. apply list_elem_of_In. exact H.
Qed.

Lemma removeFiles_idempotent_on_own_keys_witness :
  let once := removeFiles sampleModel (Some [js "HELP.md"; js "application-local.yaml"]) in
  own (fst once) !! js "HELP.md" = None /\
  In (LogRemoved (js "HELP.md")) (snd once) /\
  In (WarnNotFound (js "application-local.yaml")) (snd once) /\
  own (fst once) !! js "pom.xml" = Some (entryOf (js "pom.xml") [60]).
Proof.
  intros once. subst once.
  destruct (removeFiles_idempotent_on_own_keys sampleModel
              [js "HELP.md"; js "application-local.yaml"])
    as (_ & Habsent & Hremoved & Hwarned & _ & Hkept).
  split; [apply Habsent; left; reflexivity|].
  split; [apply Hremoved; [left; reflexivity | eexists; vm_compute; reflexivity]|].
  split; [apply Hwarned; [right; left; reflexivity | vm_compute; reflexivity
                         | vm_compute; reflexivity]|].
  rewrite Hkept; [vm_compute; reflexivity|].
  intros [H|[H|[]]]; vm_compute in H; discriminate H.
Defined.

(** ** The request URL ([buildSpringInitializrUrl], and the start of [scaffold]) *)

Local Open Scope string_scope.

Fixpoint occurrences (a : ascii) (s : string) : nat :=
  match s with
  | EmptyString => 0%nat
  | String b t => ((if Ascii.eqb b a then 1 else 0) + occurrences a t)%nat
  end.

Lemma occurrences_append a s t :
  occurrences a (s +:+ t) = (occurrences a s + occurrences a t)%nat.
Proof. induction s as [|b s IH]; simpl; [reflexivity | rewrite IH; lia]. Qed.

(** The characters with a meaning in a URL that the serialisation of a
    byte never produces. *)
Definition isDelimiter (a : ascii) : bool :=
  Ascii.eqb a "&" || Ascii.eqb a "=" || Ascii.eqb a "?" || Ascii.eqb a "#"
  || Ascii.eqb a " ".

Lemma occurrences_encodeByte a b :
  isDelimiter a = true -> occurrences a (encodeByte b) = 0%nat.
Proof.
  unfold isDelimiter. rewrite !orb_true_iff, !Ascii.eqb_eq.
  intros [[[[->| ->]| ->]| ->]| ->];
    destruct b as [b0 b1 b2 b3 b4 b5 b6 b7];
    destruct b0, b1, b2, b3, b4, b5, b6, b7; reflexivity.
Qed.

Lemma occurrences_urlencode a s :
  isDelimiter a = true -> occurrences a (urlencode s) = 0%nat.
Proof.
  intros Ha. induction s as [|b s IH]; simpl; [reflexivity|].
  rewrite occurrences_append, IH, occurrences_encodeByte by exact Ha. reflexivity.
Qed.

Lemma occurrences_serializePair a kv :
  isDelimiter a = true ->
  occurrences a (serializePair kv) = (if Ascii.eqb "=" a then 1 else 0)%nat.
Proof.
  intros Ha. unfold serializePair. rewrite occurrences_append. cbn [occurrences].
  rewrite !occurrences_urlencode by exact Ha.
  destruct (Ascii.eqb "=" a); lia.
Qed.

Lemma occurrences_toString a params :
  isDelimiter a = true ->
  occurrences a (toString params) =
  ((if Ascii.eqb "=" a then length params else 0)
   + (if Ascii.eqb "&" a then pred (length params) else 0))%nat.
Proof.
  intros Ha. unfold toString. induction params as [|kv rest IH].
  - destruct (Ascii.eqb "=" a), (Ascii.eqb "&" a); reflexivity.
  - destruct rest as [|kv' rest].
    + cbn [map String.concat length pred].
      rewrite occurrences_serializePair by exact Ha.
      destruct (Ascii.eqb "=" a), (Ascii.eqb "&" a); reflexivity.
    + change (String.concat (String "&" EmptyString) (map serializePair (kv :: kv' :: rest)))
        with (serializePair kv +:+
              String "&" (String.concat (String "&" EmptyString) (map serializePair (kv' :: rest)))).
      rewrite occurrences_append. cbn [occurrences]. rewrite IH.
      rewrite occurrences_serializePair by exact Ha. cbn [length pred].
      destruct (Ascii.eqb "=" a), (Ascii.eqb "&" a); lia.
Qed.

(** X9: whatever the field values contain, the URL has one [?], ten
    [&] and eleven [=], and neither a [#] nor a space: a value cannot
    add, end or override a parameter. *)
Theorem url_has_fixed_shape (options : Options) :
  let url := buildSpringInitializrUrl options in
  occurrences "?" url = 1%nat /\ occurrences "&" url = 10%nat /\
  occurrences "=" url = 11%nat /\ occurrences "#" url = 0%nat /\
  occurrences " " url = 0%nat.
Proof.
  intros url. subst url. unfold buildSpringInitializrUrl.
  rewrite !occurrences_append, !occurrences_toString by reflexivity.
  repeat split.
Qed.

(** Every character of a string passes a test. *)
Fixpoint allChars (f : ascii -> bool) (s : string) : bool :=
  match s with
  | EmptyString => true
  | String a t => f a && allChars f t
  end.

Definition isAlnumOrDot (a : ascii) : bool := isAlnum a || Ascii.eqb a ".".

Lemma allChars_append f s t : allChars f (s +:+ t) = allChars f s && allChars f t.
Proof. induction s as [|a s IH]; simpl; [reflexivity | rewrite IH; apply andb_assoc]. Qed.

Lemma allChars_impl (f g : ascii -> bool) s :
  (forall a, f a = true -> g a = true) -> allChars f s = true -> allChars g s = true.
Proof.
  intros Hfg. induction s as [|a s IH]; simpl; [auto|].
  rewrite !andb_true_iff. intros [Ha Hs]. auto.
Qed.

Lemma stripNonAlnum_alnum s : allChars isAlnum (stripNonAlnum s) = true.
Proof.
  induction s as [|a s IH]; simpl; [reflexivity|].
  destruct (isAlnum a) eqn:E; simpl; [rewrite E|]; exact IH.
Qed.

Lemma stripNonAlnum_id s : allChars isAlnum s = true -> stripNonAlnum s = s.
Proof.
  induction s as [|a s IH]; simpl; [reflexivity|].
  rewrite andb_true_iff. intros [-> Hs]. rewrite (IH Hs). reflexivity.
Qed.

Lemma concat_dots_alnum parts :
  Forall (fun part => allChars isAlnum part = true) parts ->
  allChars isAlnumOrDot (String.concat (String "." EmptyString) parts) = true.
Proof.
  assert (Himpl : forall a, isAlnum a = true -> isAlnumOrDot a = true)
    by (intros a H; unfold isAlnumOrDot; rewrite H; reflexivity).
  induction 1 as [|part rest Hpart _ IH]; [reflexivity|].
  destruct rest as [|part' rest].
  - simpl. eapply allChars_impl; eauto.
  - change (String.concat (String "." EmptyString) (part :: part' :: rest))
      with (part +:+ String "." (String.concat (String "." EmptyString) (part' :: rest))).
    rewrite allChars_append. cbn [allChars]. rewrite IH.
    rewrite (allChars_impl _ _ _ Himpl Hpart). reflexivity.
Qed.

Lemma urlencode_unreserved s : allChars isUnreserved s = true -> urlencode s = s.
Proof.
  induction s as [|a s IH]; simpl; [reflexivity|].
  rewrite andb_true_iff. intros [Ha Hs]. unfold encodeByte. rewrite Ha, (IH Hs). reflexivity.
Qed.

Lemma isAlnumOrDot_unreserved a : isAlnumOrDot a = true -> isUnreserved a = true.
Proof.
  unfold isAlnumOrDot, isUnreserved. rewrite !orb_true_iff. tauto.
Qed.

(** X10: the group identifier and the package name [scaffold] derives
    consist of ASCII letters, digits and full stops only, whatever the
    domain and the module name contain, and so reach the URL as they
    are, without any escape. *)
Theorem derived_identifiers_are_plain
    (domain name : string) (fv : FieldValues) (bt : BaseTemplateConfig) :
  let options := scaffoldOptions domain name fv bt in
  allChars isAlnumOrDot (groupId options) = true /\
  allChars isAlnumOrDot (packageName options) = true /\
  urlencode (groupId options) = groupId options /\
  urlencode (packageName options) = packageName options.
Proof.
  intros options. subst options. unfold scaffoldOptions. cbn [groupId packageName].
  assert (Hg : allChars isAlnumOrDot
                 (String.concat (String "." EmptyString)
                    (rev (map stripNonAlnum (splitOn "." domain)))) = true).
  { apply concat_dots_alnum. apply Forall_forall. intros part Hin.
    apply list_elem_of_In, in_rev, in_map_iff in Hin as (x & <- & _).
    apply stripNonAlnum_alnum. }
  assert (Hp : allChars isAlnumOrDot
                 (String.concat (String "." EmptyString)
                    (rev (map stripNonAlnum (splitOn "." domain)))
                  +:+ String "." (stripNonAlnum name)) = true).
  { rewrite allChars_append, Hg. simpl.
    apply (allChars_impl isAlnum); [|apply stripNonAlnum_alnum].
    intros a H. unfold isAlnumOrDot. rewrite H. reflexivity. }
  repeat split; try assumption;
    apply urlencode_unreserved, (allChars_impl isAlnumOrDot);
    auto using isAlnumOrDot_unreserved.
Qed.

Lemma splitOn_nonempty sep s : splitOn sep s <> [].
Proof.
  destruct s as [|a s]; simpl; [discriminate|].
  destruct (Ascii.eqb a sep); [discriminate|]. destruct (splitOn sep s); discriminate.
Qed.

Lemma splitOn_parts sep s : Forall (fun part => contains sep part = false) (splitOn sep s).
Proof.
  induction s as [|a s IH]; simpl; [repeat constructor|].
  destruct (Ascii.eqb a sep) eqn:E; [constructor; [reflexivity | exact IH]|].
  destruct (splitOn sep s) as [|part parts]; [repeat constructor; simpl; rewrite E; reflexivity|].
  apply Forall_cons in IH as [Hpart Hparts]. constructor; [|exact Hparts].
  simpl. rewrite E, Hpart. reflexivity.
Qed.

(** [parts.join(sep)] then [split(sep)] gives the parts back when none
    contains the separator, and [split] then [join] the string. *)
Lemma splitOn_concat sep parts :
  parts <> [] -> Forall (fun part => contains sep part = false) parts ->
  splitOn sep (String.concat (String sep EmptyString) parts) = parts.
Proof.
  intros Hne H. induction H as [|part rest Hpart _ IH]; [contradiction|].
  destruct rest as [|part' rest].
  - simpl. apply splitOn_none. exact Hpart.
  - change (String.concat (String sep EmptyString) (part :: part' :: rest))
      with (part +:+ String sep (String.concat (String sep EmptyString) (part' :: rest))).
    rewrite splitOn_append by exact Hpart. rewrite IH by discriminate. reflexivity.
Qed.

Lemma concat_splitOn sep s : String.concat (String sep EmptyString) (splitOn sep s) = s.
Proof.
  induction s as [|a s IH]; [reflexivity|]. simpl.
  destruct (Ascii.eqb a sep) eqn:E.
  - apply Ascii.eqb_eq in E. subst a.
    pose proof (splitOn_nonempty sep s) as Hne.
    destruct (splitOn sep s) as [|part parts]; [contradiction|].
    change (String.concat (String sep EmptyString) (EmptyString :: part :: parts))
      with (String sep (String.concat (String sep EmptyString) (part :: parts))).
    rewrite IH. reflexivity.
  - destruct (splitOn sep s) as [|part parts] eqn:Es.
    + exfalso. eapply splitOn_nonempty; eauto.
    + rewrite <- IH. destruct parts; reflexivity.
Qed.

Lemma contains_alnum_dot s : allChars isAlnum s = true -> contains "." s = false.
Proof.
  induction s as [|a s IH]; simpl; [reflexivity|].
  rewrite andb_true_iff. intros [Ha Hs]. rewrite (IH Hs), orb_false_r.
  destruct (Ascii.eqb a ".") eqn:E; [|reflexivity].
  apply Ascii.eqb_eq in E. subst a. discriminate.
Qed.

Lemma splitOn_groupId
    (domain name : string) (fv : FieldValues) (bt : BaseTemplateConfig) :
  splitOn "." (groupId (scaffoldOptions domain name fv bt))
  = rev (map stripNonAlnum (splitOn "." domain)).
Proof.
  unfold scaffoldOptions. cbn [groupId]. apply splitOn_concat.
  - intros H. apply (f_equal (@length string)) in H.
    rewrite length_rev, length_map in H. simpl in H.
    pose proof (splitOn_nonempty "." domain) as Hne.
    destruct (splitOn "." domain); [contradiction | discriminate].
  - apply Forall_forall. intros part Hin.
    apply list_elem_of_In, in_rev, in_map_iff in Hin as (x & <- & _).
    apply contains_alnum_dot, stripNonAlnum_alnum.
Qed.

(** X11: the labels of the derived group identifier are the labels of
    the domain, each with its characters outside [a-zA-Z0-9] dropped, in
    reverse order: there are as many, and a label that loses all its
    characters stays as an empty label. *)
Theorem groupId_labels
    (domain name : string) (fv : FieldValues) (bt : BaseTemplateConfig) :
  splitOn "." (groupId (scaffoldOptions domain name fv bt))
    = rev (map stripNonAlnum (splitOn "." domain)) /\
  length (splitOn "." (groupId (scaffoldOptions domain name fv bt)))
    = length (splitOn "." domain).
Proof.
  rewrite splitOn_groupId, length_rev, length_map. split; reflexivity.
Qed.

Lemma allChars_splitOn_dot s :
  allChars isAlnumOrDot s = true ->
  Forall (fun part => allChars isAlnum part = true) (splitOn "." s).
Proof.
  induction s as [|a s IH]; simpl; [repeat constructor|].
  rewrite andb_true_iff. intros [Ha Hs]. specialize (IH Hs).
  destruct (Ascii.eqb a ".") eqn:E; [constructor; [reflexivity | exact IH]|].
  unfold isAlnumOrDot in Ha. rewrite E, orb_false_r in Ha.
  destruct (splitOn "." s) as [|part parts]; [repeat constructor; simpl; rewrite Ha; reflexivity|].
  apply Forall_cons in IH as [Hpart Hparts]. constructor; [|exact Hparts].
  simpl. rewrite Ha, Hpart. reflexivity.
Qed.

Lemma map_stripNonAlnum_id parts :
  Forall (fun part => allChars isAlnum part = true) parts ->
  map stripNonAlnum parts = parts.
Proof.
  induction 1 as [|part rest Hpart _ IH]; [reflexivity|].
  simpl. rewrite (stripNonAlnum_id _ Hpart), IH. reflexivity.
Qed.

(** X12: on a domain made of letters, digits and full stops, deriving
    the group identifier twice gives the domain back: the derivation
    reverses the labels and changes nothing else. *)
Theorem groupId_involutive
    (domain name name' : string) (fv fv' : FieldValues) (bt bt' : BaseTemplateConfig) :
  allChars isAlnumOrDot domain = true ->
  groupId (scaffoldOptions (groupId (scaffoldOptions domain name fv bt)) name' fv' bt')
  = domain.
Proof.
  intros Hclean.
  pose proof (splitOn_groupId domain name fv bt) as Hlabels.
  pose proof (allChars_splitOn_dot domain Hclean) as Hparts.
  rewrite (map_stripNonAlnum_id _ Hparts) in Hlabels.
  unfold scaffoldOptions at 1. cbn [groupId]. rewrite Hlabels.
  rewrite map_stripNonAlnum_id.
  - rewrite rev_involutive. apply concat_splitOn.
  - apply Forall_forall. intros part Hin. apply list_elem_of_In, in_rev in Hin.
    apply (proj1 (List.Forall_forall _ _) Hparts). exact Hin.
Qed.

Lemma groupId_involutive_witness :
  groupId (scaffoldOptions
             (groupId (scaffoldOptions "shop.example.com" "orders"
                         noFieldValues noBaseTemplateConfig))
             "orders" noFieldValues noBaseTemplateConfig)
  = "shop.example.com".
Proof.
  apply (groupId_involutive "shop.example.com"). reflexivity.
Defined.

(** The value of a parameter in a parsed query. *)
Fixpoint param (key : string) (params : list (string * string)) : option string :=
  match params with
  | [] => None
  | (k, v) :: rest => if String.eqb k key then Some v else param key rest
  end.

(** X13: a field value of the module reaches the request unchanged,
    whatever characters it contains, and wins over the base template
    configuration; a field value that is missing or empty leaves the
    place to the base template configuration.  The module's
    [springBootVersion] travels as [platformVersion]. *)
Theorem field_values_reach_the_url
    (domain name : string) (fv : FieldValues) (bt : BaseTemplateConfig) :
  exists query,
    scaffoldUrl domain name (Some fv) (Some bt)
      = "https://start.spring.io/starter.zip?" +:+ query /\
    (forall v, truthy (fv_javaVersion fv) = Some v ->
       param "javaVersion" (parseQuery query) = Some v) /\
    (forall v, truthy (fv_springBootVersion fv) = Some v ->
       param "platformVersion" (parseQuery query) = Some v) /\
    (forall v, truthy (fv_packaging fv) = Some v ->
       param "packaging" (parseQuery query) = Some v) /\
    (forall v, truthy (fv_dependencies fv) = Some v ->
       param "dependencies" (parseQuery query) = Some v) /\
    (forall v, truthy (fv_javaVersion fv) = None -> truthy (bt_javaVersion bt) = Some v ->
       param "javaVersion" (parseQuery query) = Some v) /\
    (forall v, truthy (fv_springBootVersion fv) = None ->
       truthy (bt_platformVersion bt) = Some v ->
       param "platformVersion" (parseQuery query) = Some v) /\
    (forall v, truthy (fv_packaging fv) = None -> truthy (bt_packaging bt) = Some v ->
       param "packaging" (parseQuery query) = Some v) /\
    (forall v, truthy (fv_dependencies fv) = None -> truthy (bt_dependencies bt) = Some v ->
       param "dependencies" (parseQuery query) = Some v).
Proof.
  destruct (buildSpringInitializrUrl_query (scaffoldOptions domain name fv bt))
    as (query & Hurl & Hparse).
  exists query. split; [exact Hurl|]. rewrite Hparse.
  unfold searchParams, scaffoldOptions, orElse. cbn.
  repeat split; intros v; repeat (intros ->); reflexivity.
Qed.

Lemma field_values_reach_the_url_witness :
  exists query,
    scaffoldUrl "example.com" "orders"
      (Some {| fv_javaVersion := Some "17"; fv_springBootVersion := None;
               fv_buildTool := Some "maven"; fv_packaging := Some "";
               fv_dependencies := Some "web,data-jpa&x=1" |})
      (Some {| bt_build := None; bt_javaVersion := Some "21"; bt_platformVersion := Some "3.4.1";
               bt_packaging := Some "war"; bt_dependencies := None |})
      = "https://start.spring.io/starter.zip?" +:+ query /\
    param "javaVersion" (parseQuery query) = Some "17" /\
    param "dependencies" (parseQuery query) = Some "web,data-jpa&x=1" /\
    param "platformVersion" (parseQuery query) = Some "3.4.1" /\
    param "packaging" (parseQuery query) = Some "war".
Proof.
  destruct (field_values_reach_the_url "example.com" "orders"
              {| fv_javaVersion := Some "17"; fv_springBootVersion := None;
                 fv_buildTool := Some "maven"; fv_packaging := Some "";
                 fv_dependencies := Some "web,data-jpa&x=1" |}
              {| bt_build := None; bt_javaVersion := Some "21"; bt_platformVersion := Some "3.4.1";
                 bt_packaging := Some "war"; bt_dependencies := None |})
    as (query & Hurl & Hj & _ & _ & Hd & _ & Hv & Hp & _).
  exists query. split; [exact Hurl|].
  split; [apply Hj; reflexivity|].
  split; [apply Hd; reflexivity|].
  split; [apply Hv; reflexivity | apply Hp; reflexivity].
Defined.

Local Close Scope string_scope.

(** ** [downloadSpringBootZip] *)

(** X14: the fetch touches no path but the destination, whatever the
    server and the streams do; and when the request itself fails, it
    rejects with the download error and leaves the disk as it was. *)
Theorem fetch_touches_only_destination
    (url : string) (outputPath : list N) (exchange : Exchange) (fs : FileSystem) :
  let r := downloadSpringBootZip url outputPath exchange fs in
  (forall p, p <> outputPath -> disk r !! p = fs !! p) /\
  (forall message,
      exchange = RequestFails message ->
      settlement r = Rejected (DownloadError message) /\ disk r = fs).
Proof.
  intros r. subst r. split.
  - intros p Hp. unfold downloadSpringBootZip, unlinkSync.
    destruct exchange as [m|code [|m|m|[m|]]]; simpl; try reflexivity;
      destruct (code =? 200); simpl; try reflexivity;
      try (rewrite lookup_insert_ne by congruence; reflexivity).
    + destruct (fs !! outputPath) as [[|]|]; simpl; try reflexivity.
      rewrite lookup_delete_ne by congruence. reflexivity.
    + rewrite lookup_insert_eq. simpl.
      rewrite lookup_delete_ne, lookup_insert_ne by congruence. reflexivity.
  - intros message ->. split; reflexivity.
Qed.

Lemma fetch_touches_only_destination_witness :
  disk (downloadSpringBootZip "https://start.spring.io/starter.zip?type=gradle-project"
          (js "/tmp/genesis3-spring-a1b2c3/starter.zip")
          (Responds 200 (WriteFails "ENOSPC"))
          {[ js "/tmp/genesis3-spring-a1b2c3" := Directory ]})
    !! js "/tmp/genesis3-spring-a1b2c3"
  = Some Directory.
Proof.
  destruct (fetch_touches_only_destination
              "https://start.spring.io/starter.zip?type=gradle-project"
              (js "/tmp/genesis3-spring-a1b2c3/starter.zip")
              (Responds 200 (WriteFails "ENOSPC"))
              {[ js "/tmp/genesis3-spring-a1b2c3" := Directory ]}) as [Hframe _].
  rewrite Hframe; [reflexivity | discriminate].
Defined.

(** X15: when the write stream fails after the destination was opened,
    the fetch rejects with the error of the stream, and no file is left
    at the destination: the partial file is removed, and so is a file
    that was there before the fetch, which opening had truncated. *)
Theorem write_error_removes_destination
    (url : string) (outputPath : list N) (message : string) (fs : FileSystem) :
  let r := downloadSpringBootZip url outputPath (Responds 200 (WriteFails message)) fs in
  settlement r = Rejected (SystemError message) /\
  disk r = delete outputPath fs.
Proof.
  simpl. unfold unlinkSync. rewrite lookup_insert_eq. simpl.
  split; [reflexivity|]. apply delete_insert_eq.
Qed.

(** ** [scaffold] *)

Lemma isUnder_below dir rest : isUnder dir (dir ++ 47 :: rest) = true.
Proof.
  unfold isUnder. apply orb_true_iff. right. apply bool_decide_eq_true.
  change (dir ++ 47 :: rest) with (dir ++ [47] ++ rest). rewrite app_assoc.
  replace (S (length dir)) with (length (dir ++ [47])) by (rewrite length_app; simpl; lia).
  apply take_app_length.
Qed.

Lemma isUnder_self dir : isUnder dir dir = true.
Proof. unfold isUnder. rewrite bool_decide_true by reflexivity. reflexivity. Qed.

(** The entries an unpacked item leaves on disk lie below the directory
    it is unpacked into. *)
Lemma nodesOf_below item : forall dir kv,
  In kv (nodesOf dir item) -> exists rest, fst kv = dir ++ 47 :: rest.
Proof.
  induction item as [name read|name access items IH] using Dirent_nested_ind;
    intros dir kv Hin.
  - destruct Hin as [<-|[]]. exists name. reflexivity.
  - assert (Hsub : forall kv,
              In kv ((fix each (items : list Dirent) : list (list N * Node) :=
                        match items with
                        | [] => []
                        | item :: rest => nodesOf (join dir name) item ++ each rest
                        end) items) ->
              exists rest, fst kv = dir ++ 47 :: rest).
    { clear Hin kv. induction IH as [|item rest Hitem _ IHrest]; intros kv Hin; [destruct Hin|].
      apply in_app_or in Hin as [Hin|Hin]; [|apply IHrest; exact Hin].
      destruct (Hitem _ _ Hin) as (r & ->). unfold join. rewrite <- app_assoc. eauto. }
    destruct access; simpl in Hin; try contradiction;
      (destruct Hin as [<-|Hin]; [exists name; reflexivity | apply Hsub; exact Hin]).
Qed.

Lemma extractAllTo_frame
    (extractPath : list N) (archive : ArchiveEnv) (fs : FileSystem) (p : list N) :
  (forall rest, p <> extractPath ++ 47 :: rest) ->
  extractAllTo extractPath archive fs !! p = fs !! p.
Proof.
  intros Hp. unfold extractAllTo.
  destruct (admZipInstalled archive); [|reflexivity].
  destruct (unpack archive) as [m|access items]; [reflexivity|].
  assert (Hkeys : forall kv, In kv (flat_map (nodesOf extractPath) items) ->
                             exists rest, fst kv = extractPath ++ 47 :: rest).
  { intros kv Hin. apply in_flat_map in Hin as (item & _ & Hin).
    eapply nodesOf_below; eauto. }
  revert fs Hkeys. induction (flat_map (nodesOf extractPath) items) as [|kv l IH];
    intros fs Hkeys; [reflexivity|].
  simpl. rewrite IH by (intros kv' H; apply Hkeys; right; exact H).
  destruct (Hkeys kv (or_introl eq_refl)) as (rest & Hkv).
  apply lookup_insert_ne. rewrite Hkv. intros H. apply (Hp rest). symmetry. exact H.
Qed.

(** The pipeline writes below the staging directory only. *)
Lemma pipeline_frame
    (moduleConfig : ModuleConfig) (context : Context) (env : Env)
    (tempDir : list N) (fs : FileSystem) (p : list N) :
  isUnder tempDir p = false ->
  disk (pipeline moduleConfig context env tempDir fs) !! p = fs !! p.
Proof.
  intros Hp.
  assert (Hout : forall rest, p <> tempDir ++ 47 :: rest).
  { intros rest ->. rewrite isUnder_below in Hp. discriminate. }
  assert (Hd : disk (downloadSpringBootZip (urlOf moduleConfig context)
                       (join tempDir (js "starter.zip")) (exchange env) fs) !! p = fs !! p).
  { unfold downloadSpringBootZip, unlinkSync.
    assert (Hz : join tempDir (js "starter.zip") <> p) by (intros <-; eapply Hout; reflexivity).
    destruct (exchange env) as [m|code [|m|m|[m|]]]; simpl; try reflexivity;
      destruct (code =? 200); simpl; try reflexivity;
      try (rewrite lookup_insert_ne by exact Hz; reflexivity).
    - destruct (fs !! join tempDir (js "starter.zip")) as [[|]|]; simpl; try reflexivity.
      rewrite lookup_delete_ne by exact Hz. reflexivity.
    - rewrite lookup_insert_eq. simpl.
      rewrite lookup_delete_ne, lookup_insert_ne by exact Hz. reflexivity. }
  unfold pipeline.
  destruct (settlement (downloadSpringBootZip _ _ _ _)) as [v|e|u]; cbn [disk]; try exact Hd.
  destruct (mkdir env); cbn [disk]; [exact Hd|].
  assert (He : extractAllTo (join tempDir (js "extracted")) (archive env)
                 (<[join tempDir (js "extracted") := Directory]>
                    (disk (downloadSpringBootZip (urlOf moduleConfig context)
                             (join tempDir (js "starter.zip")) (exchange env) fs))) !! p
               = fs !! p).
  { rewrite extractAllTo_frame.
    - rewrite lookup_insert_ne; [exact Hd|]. intros <-. eapply Hout. reflexivity.
    - intros rest ->. unfold join in Hp. rewrite <- app_assoc in Hp.
      simpl in Hp. rewrite isUnder_below in Hp. discriminate. }
  destruct (extractZipToMemory (archive env)) as [[e|files] log]; cbn [disk]; exact He.
Qed.

(** X16: a run that settles and whose clean-up succeeds leaves the disk
    exactly as it found it, provided nothing existed at or below the
    new staging directory, as [mkdtempSync] guarantees: every file the
    run wrote was below that directory. *)
Theorem scaffold_restores_disk
    (moduleConfig : ModuleConfig) (context : Context) (env : Env)
    (fs : FileSystem) (suffix : list N) :
  mkdtemp env = inr suffix ->
  (forall p, isUnder (stagingDir env suffix) p = true -> fs !! p = None) ->
  rm env = RmDone ->
  settled (settlement (scaffold moduleConfig context env fs)) = true ->
  disk (scaffold moduleConfig context env fs) = fs.
Proof.
  intros Htmp Hfresh Hrm. unfold scaffold. rewrite Htmp. cbn [settlement disk].
  set (tempDir := stagingDir env suffix) in *.
  set (body := pipeline moduleConfig context env tempDir (<[tempDir := Directory]> fs)).
  destruct (settled (settlement body)) eqn:Hs; [|intros H; rewrite Hs in H; discriminate].
  intros _. unfold cleanup. rewrite Hrm. cbn [disk].
  apply map_eq. intros p. rewrite rmTree_lookup.
  destruct (isUnder tempDir p) eqn:Hp; [symmetry; apply Hfresh; exact Hp|].
  unfold body. rewrite pipeline_frame by exact Hp.
  apply lookup_insert_ne. intros <-. rewrite isUnder_self in Hp. discriminate.
Qed.

Lemma scaffold_restores_disk_witness :
  disk (scaffold sampleModuleConfig sampleContext brokenArchiveEnv
          {[ js "/tmp" := Directory ]})
  = {[ js "/tmp" := Directory ]}.
Proof.
  apply (scaffold_restores_disk sampleModuleConfig sampleContext brokenArchiveEnv
           {[ js "/tmp" := Directory ]} (js "a1b2c3")).
  - reflexivity.
  - intros p Hp. apply lookup_singleton_None. intros <-. vm_compute in Hp. discriminate.
  - reflexivity.
  - vm_compute. reflexivity.
Defined.

Lemma scaffold_settlement
    (moduleConfig : ModuleConfig) (context : Context) (env : Env)
    (fs : FileSystem) (suffix : list N) :
  mkdtemp env = inr suffix ->
  settlement (scaffold moduleConfig context env fs)
  = settlement (pipeline moduleConfig context env (stagingDir env suffix)
                  (<[stagingDir env suffix := Directory]> fs)) /\
  requests (scaffold moduleConfig context env fs) = [urlOf moduleConfig context].
Proof.
  intros Htmp. unfold scaffold. rewrite Htmp. cbn [settlement requests].
  set (body := pipeline _ _ _ _ _).
  assert (Hreq : requests body = [urlOf moduleConfig context]).
  { unfold body, pipeline.
    assert (Hd : forall x o (f : FileSystem),
               requests (downloadSpringBootZip (urlOf moduleConfig context) o x f)
               = [urlOf moduleConfig context]).
    { intros x o f. unfold downloadSpringBootZip, unlinkSync.
      destruct x as [m|code [|m|m|[m|]]]; simpl; try reflexivity;
        destruct (code =? 200); simpl; try reflexivity.
      - destruct (f !! o) as [[|]|]; reflexivity.
      - rewrite lookup_insert_eq. reflexivity. }
    destruct (settlement (downloadSpringBootZip _ _ _ _)); cbn [requests]; try apply Hd.
    destruct (mkdir env); cbn [requests]; [apply Hd|].
    destruct (extractZipToMemory (archive env)) as [[e|files] log]; cbn [requests]; apply Hd. }
  destruct (settled (settlement body)); [|auto].
  unfold cleanup. destruct (rm env); cbn [settlement requests]; auto.
Qed.

(** X17: the first step that fails decides how [scaffold] ends, and one
    request is sent whenever the staging directory could be created:
    a status other than 200 rejects with the status error, a failed
    request with the download error, a failed [mkdirSync] with its
    error, a missing archive library with the installation hint, an
    archive that cannot be unpacked with the library's error.  Without a
    staging directory nothing is requested or written.  The run is
    fulfilled exactly when the download finished, the directory was
    made and the walk returned a model. *)
Theorem scaffold_outcome
    (moduleConfig : ModuleConfig) (context : Context) (env : Env) (fs : FileSystem) :
  let r := scaffold moduleConfig context env fs in
  (forall message, mkdtemp env = inl message ->
     settlement r = Rejected (SystemError message) /\ disk r = fs /\ requests r = []) /\
  (forall suffix, mkdtemp env = inr suffix ->
     requests r = [urlOf moduleConfig context] /\
     (forall code transfer, exchange env = Responds code transfer -> code <> 200 ->
        settlement r = Rejected (StatusError code)) /\
     (forall message, exchange env = RequestFails message ->
        settlement r = Rejected (DownloadError message)) /\
     (exchange env = Responds 200 Finished ->
        (forall message, mkdir env = Some message ->
           settlement r = Rejected (SystemError message)) /\
        (mkdir env = None ->
           (admZipInstalled (archive env) = false -> settlement r = Rejected MissingAdmZip) /\
           (forall message, admZipInstalled (archive env) = true ->
              unpack (archive env) = UnpackThrows message ->
              settlement r = Rejected (SystemError message)))) /\
     ((exists model, settlement r = Fulfilled model) <->
      exchange env = Responds 200 Finished /\ mkdir env = None /\
      exists files log, extractZipToMemory (archive env) = (inr files, log))).
Proof.
  intros r. subst r. split.
  - intros message Htmp. unfold scaffold. rewrite Htmp. auto.
  - intros suffix Htmp.
    destruct (scaffold_settlement moduleConfig context env fs suffix Htmp) as [-> ->].
    split; [reflexivity|].
    unfold pipeline, downloadSpringBootZip, unlinkSync.
    split; [|split; [|split]].
    + intros code transfer -> Hne. apply N.eqb_neq in Hne. rewrite Hne. reflexivity.
    + intros message ->. reflexivity.
    + intros ->. simpl. split.
      * intros message ->. reflexivity.
      * intros ->. unfold extractZipToMemory. split.
        -- intros ->. reflexivity.
        -- intros message -> ->. reflexivity.
    + split.
      * intros [model H].
        destruct (exchange env) as [m|code [|m|m|[m|]]]; simpl in H; try discriminate;
          destruct (code =? 200) eqn:E; simpl in H; try discriminate.
        -- apply N.eqb_eq in E. subst code.
           destruct (mkdir env); [discriminate|].
           destruct (extractZipToMemory (archive env)) as [[e|files] log]; [discriminate|].
           eauto.
        -- destruct (_ !! _) as [[|]|]; discriminate.
        -- rewrite lookup_insert_eq in H. discriminate.
      * intros (-> & -> & files & log & ->). simpl. eauto.
Qed.

Lemma scaffold_outcome_witness :
  settlement (scaffold sampleModuleConfig sampleContext brokenArchiveEnv ∅)
  = Rejected (SystemError "Invalid or unsupported zip format").
Proof.
  destruct (scaffold_outcome sampleModuleConfig sampleContext brokenArchiveEnv ∅) as [_ H].
  destruct (H (js "a1b2c3") eq_refl) as (_ & _ & _ & Hsteps & _).
  destruct (Hsteps eq_refl) as [_ Hafter].
  destruct (Hafter eq_refl) as [_ Hunpack].
  apply (Hunpack "Invalid or unsupported zip format"); reflexivity.
Defined.

(** X18: end to end, when the download finishes and the archive unpacks
    into a directory tree whose directories can be listed, [scaffold]
    is fulfilled with the object whose own properties are, under its
    relative path, the entry of every file that could be read, is not
    on the removal list of the module configuration and does not lie at
    the path [__proto__], and nothing else; the entry of a file read at
    [__proto__] is the prototype of the object, removal list or not. *)
Theorem scaffold_returns_filtered_tree
    (moduleConfig : ModuleConfig) (context : Context) (env : Env)
    (fs : FileSystem) (suffix : list N) (items : list Dirent) :
  mkdtemp env = inr suffix ->
  exchange env = Responds 200 Finished ->
  mkdir env = None ->
  admZipInstalled (archive env) = true ->
  unpack (archive env) = Unpacked Listed items ->
  forallb listable items = true ->
  wellFormedTree items = true ->
  exists model,
    settlement (scaffold moduleConfig context env fs) = Fulfilled model /\
    (forall p e,
      own model !! p = Some e <->
      p <> protoKey /\
      (p ∉ default [] (filesRemove moduleConfig)) /\
      exists n bytes, file_at [] items p n (ReadOk bytes) /\ e = entryOf n bytes) /\
    (forall e,
      proto model = Some e <->
      exists n bytes, file_at [] items protoKey n (ReadOk bytes) /\ e = entryOf n bytes).
Proof.
  intros Htmp Hx Hmk Hzip Hunpack Hlist Hwf.
  destruct (scaffold_settlement moduleConfig context env fs suffix Htmp) as [-> _].
  destruct (walk_model items Hlist Hwf) as (files & log & Hrun & Hmodel & Hproto & _).
  unfold pipeline. rewrite Hx, Hmk. simpl.
  unfold extractZipToMemory. rewrite Hzip, Hunpack. simpl. rewrite Hrun.
  cbn [settlement].
  exists (fst (removeFiles files (Some (default [] (filesRemove moduleConfig))))).
  split; [reflexivity|]. split.
  - intros p e. rewrite removeFiles_lookup.
    destruct (decide (p ∈ default [] (filesRemove moduleConfig))) as [Hin|Hnin].
    + split; [discriminate | intros (_ & H & _); contradiction].
    + rewrite Hmodel. tauto.
  - intros e. rewrite removeFiles_proto. apply Hproto.
Qed.

Definition sampleEnv : Env :=
  {| tmpdir := js "/tmp";
     mkdtemp := inr (js "a1b2c3");
     exchange := Responds 200 Finished;
     mkdir := None;
     archive := sampleArchive;
     rm := RmDone |}.

Lemma scaffold_returns_filtered_tree_witness :
  exists model,
    settlement (scaffold {| baseTemplateConfig := None; filesRemove := Some [js "gradlew"] |}
                  sampleContext sampleEnv ∅) = Fulfilled model /\
    own model !! js "gradlew" = None /\
    own model !! js "gradle/wrapper.jar" = Some (entryOf (js "wrapper.jar") [80; 75]).
Proof.
  destruct (scaffold_returns_filtered_tree
              {| baseTemplateConfig := None; filesRemove := Some [js "gradlew"] |}
              sampleContext sampleEnv ∅ (js "a1b2c3") sampleTree
              eq_refl eq_refl eq_refl eq_refl eq_refl eq_refl eq_refl)
    as (model & Hrun & Hmodel & _).
  exists model. split; [exact Hrun|]. split.
  - destruct (own model !! js "gradlew") as [e|] eqn:E; [|reflexivity].
    apply Hmodel in E as (_ & Hnin & _). exfalso. apply Hnin. simpl. left.
  - apply Hmodel. split; [vm_compute; discriminate|]. split.
    + simpl. intros H. apply list_elem_of_In in H as [H|[]]. vm_compute in H. discriminate.
    + exists (js "wrapper.jar"), [80; 75]. split; [|reflexivity].
      eapply file_below; [right; left; reflexivity|].
      apply (file_here (js "gradle") _ (js "wrapper.jar")). left. reflexivity.
Defined.
